(** * MIMOSA: the abstract model of [model/abstract_model.py]

    The module builds a Pyomo [AbstractModel]: it declares parameters,
    sets, variables and derivative variables, stages constraint rules in
    two Python lists, and finally registers every staged rule on the
    model together with the initial conditions and the objective.

    The development follows the module top to bottom.  Pyomo expressions
    are data ([expr], [crel]); the lambdas of the module are Rocq
    functions producing that data; the module-level script is a sequence
    of steps over an assembly state.  Numbers are real numbers. *)

From Stdlib Require Import Reals Lra Lia List String Bool.
Import ListNotations.
Open Scope R_scope.

(** ** numpy *)

Module np.

(** [np.arange(a, a + n, 1.0)] *)
Definition arange (a : R) (n : nat) : list R :=
  map (fun i => a + INR i) (seq 0 n).

(** [np.linspace(a, b, n)]: [n] evenly spaced samples from [a] to [b]. *)
Definition linspace (a b : R) (n : nat) : list R :=
  map (fun i => a + INR i * ((b - a) / INR (n - 1))) (seq 0 n).

(** [np.trapz(y, x=x)]: composite trapezoidal rule. *)
Fixpoint trapz (y x : list R) : R :=
  match y, x with
  | y0 :: ((y1 :: _) as y'), x0 :: ((x1 :: _) as x') =>
      (x1 - x0) * (y1 + y0) / 2 + trapz y' x'
  | _, _ => 0
  end.

(** One segment search of [np.interp], for a point right of [xp[0]]. *)
Fixpoint interp_from (x : R) (xp fp : list R) : R :=
  match xp, fp with
  | x0 :: ((x1 :: _) as xp'), f0 :: ((f1 :: _) as fp') =>
      if Rlt_dec x x1
      then (f1 - f0) / (x1 - x0) * (x - x0) + f0
      else interp_from x xp' fp'
  | _, f0 :: _ => f0
  | _, [] => 0
  end.

(** [np.interp(x, xp, fp)]: piecewise linear interpolation, constant
    outside the sample points.  numpy refuses empty sample arrays; the
    tables passed here have one value per entry of [data_years]. *)
Definition interp (x : R) (xp fp : list R) : R :=
  match xp, fp with
  | x0 :: _, f0 :: _ => if Rle_dec x x0 then f0 else interp_from x xp fp
  | _, _ => 0
  end.

End np.

(** ** Names of the model's components *)

Definition region := string.

(** Variables indexed by time: [Var(m.t)] and [DerivativeVar] of these. *)
Inductive gvar :=
| temperature | cumulative_emissions | global_emissions | NPV
| cumulative_emissionsdot | global_emissionsdot | NPVdot
| LBD_factor | learning_factor | LOT_factor.

(** Variables indexed by time and region: [Var(m.t, m.regions)]. *)
Inductive rvar :=
| relative_abatement | capital_stock | regional_emissions
| capital_stockdot | regional_emissionsdot
| damage_costs | abatement_costs | carbonprice
| GDP_gross | GDP_net | investments | consumption | utility.

(** Scalar [Param]s. *)
Inductive param :=
| beginyear | endyear | tf | year2100
| T0 | TCRE
| LBD_rate | log_LBD_rate | LOT_rate
| damage_coeff | MAC_gamma | MAC_beta
| alpha | dk | sr | elasmu
| PRTP.

(** [Param]s indexed by region. *)
Inductive iparam := init_capitalstock | damage_factor.

Definition gvar_eqb (a b : gvar) : bool :=
  match a, b with
  | temperature, temperature | cumulative_emissions, cumulative_emissions
  | global_emissions, global_emissions | NPV, NPV
  | cumulative_emissionsdot, cumulative_emissionsdot
  | global_emissionsdot, global_emissionsdot | NPVdot, NPVdot
  | LBD_factor, LBD_factor | learning_factor, learning_factor
  | LOT_factor, LOT_factor => true
  | _, _ => false
  end.

Definition rvar_eqb (a b : rvar) : bool :=
  match a, b with
  | relative_abatement, relative_abatement | capital_stock, capital_stock
  | regional_emissions, regional_emissions
  | capital_stockdot, capital_stockdot
  | regional_emissionsdot, regional_emissionsdot
  | damage_costs, damage_costs | abatement_costs, abatement_costs
  | carbonprice, carbonprice | GDP_gross, GDP_gross | GDP_net, GDP_net
  | investments, investments | consumption, consumption
  | utility, utility => true
  | _, _ => false
  end.

Definition param_eqb (a b : param) : bool :=
  match a, b with
  | beginyear, beginyear | endyear, endyear | tf, tf | year2100, year2100
  | T0, T0 | TCRE, TCRE | LBD_rate, LBD_rate | log_LBD_rate, log_LBD_rate
  | LOT_rate, LOT_rate | damage_coeff, damage_coeff | MAC_gamma, MAC_gamma
  | MAC_beta, MAC_beta | alpha, alpha | dk, dk | sr, sr | elasmu, elasmu
  | PRTP, PRTP => true
  | _, _ => false
  end.

Definition iparam_eqb (a b : iparam) : bool :=
  match a, b with
  | init_capitalstock, init_capitalstock | damage_factor, damage_factor => true
  | _, _ => false
  end.

(** ** Pyomo expressions and relations *)

(** An expression as Pyomo builds it.  [ENum] is a Python number: a
    literal, or the result of a call that returns a number (the data
    lookups [m.baseline(t, r)], [Quant(...)]).  The four [economics]
    functions receive expressions and are kept as nodes. *)
Inductive expr :=
| ENum (x : R)
| EPar (p : param)
| EIPar (p : iparam) (r : region)
| EG (v : gvar) (t : R)
| ER (v : rvar) (t : R) (r : region)
| EAdd (a b : expr)
| ESub (a b : expr)
| EMul (a b : expr)
| EDiv (a b : expr)
| EPow (a b : expr)
| ENeg (a : expr)
| EExp (a : expr)
| ELog (a : expr)
| Edamage_fct (temp coeff t0 : expr)
| EAC (a factor gamma beta : expr)
| EMAC (a factor gamma beta : expr)
| Ecalc_GDP (tfp l k al : expr).

(** What a constraint rule returns: a relational expression,
    [Constraint.Skip], or nothing because the rule raised (its Python
    code read a [Param] that has no value). *)
Inductive crel :=
| CEq (a b : expr)
| CLe (a b : expr)
| CGe (a b : expr)
| CSkip
| CRaise.

(** Python's [sum(...)] over Pyomo expressions and over numbers. *)
Definition esum (l : list expr) : expr := fold_left EAdd l (ENum 0).
Definition py_sum (l : list R) : R := fold_left Rplus l 0.

(** ** Values of expressions *)

(** [x / y]: division by zero raises. *)
Definition py_div (x y : R) : option R :=
  if Req_dec_T y 0 then None else Some (x / y).

(** [x ** y] on real numbers: a negative base needs an integral exponent,
    [0 ** y] needs [y >= 0]. *)
Definition py_pow (x y : R) : option R :=
  if Rlt_dec 0 x then Some (Rpower x y)
  else if Req_dec_T x 0 then
    if Rlt_dec 0 y then Some 0
    else if Req_dec_T y 0 then Some 1 else None
  else if Req_dec_T (IZR (Int_part y)) y
       then Some (powerRZ x (Int_part y)) else None.

(** [log x]: defined on positive numbers. *)
Definition py_log (x : R) : option R :=
  if Rlt_dec 0 x then Some (ln x) else None.

Definition bind {A B} (o : option A) (f : A -> option B) : option B :=
  match o with Some a => f a | None => None end.

Notation "x <- o ;; k" := (bind o (fun x => k))
  (at level 61, o at next level, right associativity).

(** The collaborators under [model.common], given from outside:
    [data.get_data(years, region, SSP, variable, unit)['values']],
    [economics.get_TFP(years, region)], the unit conversion
    [Quant(quantity, unit)], and the four [economics] functions that the
    rules call, real functions of their arguments. *)
Record Common := {
  data_get_data : list R -> region -> string -> string -> string -> list R;
  get_TFP : list R -> region -> list R;
  Quant : string -> string -> R;
  damage_fct : R -> R -> R -> R;
  AC : R -> R -> R -> R -> R;
  MAC : R -> R -> R -> R -> R;
  calc_GDP : R -> R -> R -> R -> R
}.

(** A trajectory gives every variable a value at every index. *)
Record Trajectory := {
  gv : gvar -> R -> R;
  rv : rvar -> R -> region -> R
}.

Section Eval.

Variable common : Common.
Variable value : param -> option R.
Variable ivalue : iparam -> region -> option R.
Variable x : Trajectory.

(** The value of an expression; [None] when its evaluation raises: a
    [Param] without value, a division by zero, a power or logarithm
    outside its domain. *)
Fixpoint eval (e : expr) : option R :=
  match e with
  | ENum c => Some c
  | EPar p => value p
  | EIPar p r => ivalue p r
  | EG v t => Some (gv x v t)
  | ER v t r => Some (rv x v t r)
  | EAdd a b => u <- eval a ;; v <- eval b ;; Some (u + v)
  | ESub a b => u <- eval a ;; v <- eval b ;; Some (u - v)
  | EMul a b => u <- eval a ;; v <- eval b ;; Some (u * v)
  | EDiv a b => u <- eval a ;; v <- eval b ;; py_div u v
  | EPow a b => u <- eval a ;; v <- eval b ;; py_pow u v
  | ENeg a => u <- eval a ;; Some (- u)
  | EExp a => u <- eval a ;; Some (exp u)
  | ELog a => u <- eval a ;; py_log u
  | Edamage_fct a b c =>
      u <- eval a ;; v <- eval b ;; w <- eval c ;;
      Some (damage_fct common u v w)
  | EAC a b c d =>
      u <- eval a ;; v <- eval b ;; w <- eval c ;; z <- eval d ;;
      Some (AC common u v w z)
  | EMAC a b c d =>
      u <- eval a ;; v <- eval b ;; w <- eval c ;; z <- eval d ;;
      Some (MAC common u v w z)
  | Ecalc_GDP a b c d =>
      u <- eval a ;; v <- eval b ;; w <- eval c ;; z <- eval d ;;
      Some (calc_GDP common u v w z)
  end.

(** A relation holds when both sides have a value and the values are
    related; a skipped rule constrains nothing. *)
Definition holds (c : crel) : Prop :=
  match c with
  | CEq a b =>
      match eval a, eval b with Some u, Some v => u = v | _, _ => False end
  | CLe a b =>
      match eval a, eval b with Some u, Some v => u <= v | _, _ => False end
  | CGe a b =>
      match eval a, eval b with Some u, Some v => u >= v | _, _ => False end
  | CSkip => True
  | CRaise => False
  end.

End Eval.


(** ** The parameter set [params] *)

(** An entry of [params['regions']]: ['initial capital'] and the optional
    ['damage factor']. *)
Record RegionParams := {
  initial_capital : string;
  damage_factor_entry : option R
}.

(** The entries of the nested mapping [params] that the module reads.
    An entry that is [False] or a value is an [option]. *)
Record Params := {
  time_start : R;
  time_end : R;
  params_regions : list (region * RegionParams);
  SSP : string;
  temperature_initial : string;
  temperature_TCRE : string;
  emissions_carbonbudget : option string;
  emissions_inertia_regional : option R;
  emissions_inertia_global : option R;
  emissions_min_level : option string;
  economics_MAC_rho : R;
  economics_MAC_gamma : string;
  economics_MAC_beta : R;
  economics_damages_coeff : R;
  economics_GDP_alpha : R;
  economics_GDP_depreciation_of_capital : R;
  economics_elasmu : R;
  economics_PRTP : R
}.

(** ** Model, instance and components *)

(** The plain Python attributes set on [m]: the data lookups. *)
Record Series := {
  baseline : R -> region -> R;
  population : R -> region -> R;
  TFP : R -> region -> R;
  GDP : R -> region -> R;
  baseline_cumulative : R -> region -> R
}.

(** What a rule reads from the model instance [m] it is called with:
    the region set, the values of the [Param]s and the data lookups. *)
Record Instance := {
  regions : list region;
  value : param -> option R;
  ivalue : iparam -> region -> option R;
  series : Series
}.

(** [m.L = lambda t,r: m.population(t, r)] *)
Definition L (m : Instance) (t : R) (r : region) : R :=
  population (series m) t r.

(** Rules of [Constraint(m.t, rule=...)] and
    [Constraint(m.t, m.regions, rule=...)]. *)
Definition grule := Instance -> R -> crel.
Definition rrule := Instance -> R -> region -> crel.

Inductive sense := minimize | maximize.

(** A component attached to the model.  An initial value rule that
    raises gives [None]. *)
Inductive component :=
| Param_ (p : param) (initialize : option expr)
| IParam_ (p : iparam) (initialize : list (region * R))
| Set_regions (initialize : list region)
| ContinuousSet_t (lo hi : expr)
| Var_t (v : gvar) (initialize : option expr) (bounds : option (R * R))
| Var_tr (v : rvar)
         (initialize : option (Instance -> R -> region -> option expr))
         (bounds : option (R * R))
| DerivativeVar_t (d v : gvar)
| DerivativeVar_tr (d v : rvar)
| ConstraintList (rule : Instance -> list crel)
| Constraint_t (rule : grule)
| Constraint_tr (rule : rrule)
| Objective (rule : Instance -> option expr) (s : sense).

(** The abstract model [m]: its data lookups and its components in the
    order of their declaration. *)
Record Model := {
  attributes : Series;
  components : list component
}.

(** ** Create data *)

Definition data_years : list R := np.arange 2015 186.

Section CreateData.

Variable common : Common.
Variable params : Params.

Definition data_baseline (r : region) : list R :=
  data_get_data common data_years r (SSP params) "emissions" "emissionsrate_unit".
Definition data_GDP (r : region) : list R :=
  data_get_data common data_years r (SSP params) "GDP" "currency_unit".
Definition data_population (r : region) : list R :=
  data_get_data common data_years r (SSP params) "population" "population_unit".
Definition data_TFP (r : region) : list R :=
  get_TFP common data_years r.

Definition get_data (t : R) (r : region) (data_param : region -> list R) : R :=
  let year := time_start params + t in
  np.interp year data_years (data_param r).

Definition m_baseline (t : R) (r : region) : R := get_data t r data_baseline.
Definition m_population (t : R) (r : region) : R := get_data t r data_population.
Definition m_TFP (t : R) (r : region) : R := get_data t r data_TFP.
Definition m_GDP (t : R) (r : region) : R := get_data t r data_GDP.

Definition m_baseline_cumulative (t_end : R) (r : region) : R :=
  let t_values := np.linspace 0 t_end 100 in
  np.trapz (map (fun t => m_baseline t r) t_values) t_values.

Definition create_data : Series :=
  {| baseline := m_baseline;
     population := m_population;
     TFP := m_TFP;
     GDP := m_GDP;
     baseline_cumulative := m_baseline_cumulative |}.

End CreateData.

(** ** The assembly state and its steps *)

(** The model under construction and the two staging lists of rules. *)
Record State := {
  model : Model;
  global_constraints : list grule;
  regional_constraints : list rrule
}.

(** [m.name = component] *)
Definition declare (c : component) (s : State) : State :=
  {| model := {| attributes := attributes (model s);
                 components := components (model s) ++ [c] |};
     global_constraints := global_constraints s;
     regional_constraints := regional_constraints s |}.

(** [global_constraints.append(f)] *)
Definition append_global (f : grule) (s : State) : State :=
  {| model := model s;
     global_constraints := global_constraints s ++ [f];
     regional_constraints := regional_constraints s |}.

(** [regional_constraints.append(f)], [regional_constraints.extend(l)] *)
Definition extend_regional (l : list rrule) (s : State) : State :=
  {| model := model s;
     global_constraints := global_constraints s;
     regional_constraints := regional_constraints s ++ l |}.
Definition append_regional (f : rrule) : State -> State :=
  extend_regional [f].

(** [if x is not False: ...] *)
Definition if_not_False {A} (x : option A) (body : A -> State -> State)
  (s : State) : State :=
  match x with Some a => body a s | None => s end.

(** Modelled from the spec: [utils.add_constraint] is not part of the
    module; the relations are "registered against the model's time domain
    (and region set, for regional ones) in one batch at assembly time",
    each as a further component of the model. *)
Definition add_constraint (c : component) : State -> State := declare c.

(** Statements run one after the other. *)
Definition run (script : list (State -> State)) (s : State) : State :=
  fold_left (fun s step => step s) script s.

(** ** The module, section by section *)

Section AbstractModel.

Variable common : Common.
Variable params : Params.

(** *** Create model *)

Definition create_model : list (State -> State) :=
  [ declare (Param_ beginyear (Some (ENum (time_start params))));
    declare (Param_ endyear (Some (ENum (time_end params))));
    declare (Param_ tf (Some (ESub (EPar endyear) (EPar beginyear))));
    declare (Param_ year2100 (Some (ESub (ENum 2100) (EPar beginyear))));
    declare (ContinuousSet_t (ENum 0) (EPar tf));
    declare (Set_regions (map fst (params_regions params)));
    (* Global variables *)
    declare (Var_t temperature None None);
    declare (Var_t cumulative_emissions (Some (ENum 0)) None);
    declare (Var_t global_emissions None None);
    declare (Var_t NPV None None);
    (* Regional variables *)
    declare (Var_tr relative_abatement
               (Some (fun _ _ _ => Some (ENum 0))) (Some (0, 2)));
    declare (IParam_ init_capitalstock
               (map (fun rp => (fst rp,
                                Quant common (initial_capital (snd rp))
                                  "currency_unit"))
                    (params_regions params)));
    declare (Var_tr capital_stock
               (Some (fun _ _ r => Some (EIPar init_capitalstock r))) None);
    declare (Var_tr regional_emissions None None);
    (* Derivatives *)
    declare (DerivativeVar_t cumulative_emissionsdot cumulative_emissions);
    declare (DerivativeVar_t global_emissionsdot global_emissions);
    declare (DerivativeVar_t NPVdot NPV);
    declare (DerivativeVar_tr capital_stockdot capital_stock);
    declare (DerivativeVar_tr regional_emissionsdot regional_emissions) ].

(** *** Emission equations *)

Definition regional_emissions_rule : rrule := fun m t r =>
  CEq (ER regional_emissions t r)
      (EMul (ESub (ENum 1) (ER relative_abatement t r))
            (ENum (baseline (series m) t r))).

Definition global_emissions_rule : grule := fun m t =>
  CEq (EG global_emissions t)
      (esum (map (fun r => ER regional_emissions t r) (regions m))).

Definition cumulative_emissionsdot_rule : grule := fun m t =>
  CEq (EG cumulative_emissionsdot t) (EG global_emissions t).

Definition temperature_rule : grule := fun m t =>
  CEq (EG temperature t)
      (EAdd (EPar T0) (EMul (EPar TCRE) (EG cumulative_emissions t))).

Definition emission_equations : list (State -> State) :=
  [ append_regional regional_emissions_rule;
    append_global global_emissions_rule;
    append_global cumulative_emissionsdot_rule;
    declare (Param_ T0
               (Some (ENum (Quant common (temperature_initial params)
                              "temperature_unit"))));
    declare (Param_ TCRE
               (Some (ENum (Quant common (temperature_TCRE params)
                              "(temperature_unit)/(emissions_unit)"))));
    append_global temperature_rule ].

(** *** Emission constraints *)

Definition carbonbudget_rule (budget : R) : grule := fun m t =>
  match value m year2100 with
  | Some y2100 =>
      if Rge_dec t y2100
      then CLe (ESub (EG cumulative_emissions t) (ENum budget)) (ENum 0)
      else CSkip
  | None => CRaise
  end.

Definition inertia_regional_rule (inertia_regional : R) : rrule :=
  fun m t r =>
  CGe (ER regional_emissionsdot t r)
      (ENum (inertia_regional * baseline (series m) 0 r)).

Definition inertia_global_rule (inertia_global : R) : grule := fun m t =>
  CGe (EG global_emissionsdot t)
      (ENum (inertia_global
             * py_sum (map (fun r => baseline (series m) 0 r) (regions m)))).

Definition min_level_rule (min_level : string) : grule := fun m t =>
  CGe (EG global_emissions t)
      (ENum (Quant common min_level "emissionsrate_unit")).

Definition emission_constraints : list (State -> State) :=
  [ if_not_False (emissions_carbonbudget params) (fun carbonbudget =>
      let budget := Quant common carbonbudget "emissions_unit" in
      append_global (carbonbudget_rule budget));
    if_not_False (emissions_inertia_regional params) (fun inertia_regional =>
      append_regional (inertia_regional_rule inertia_regional));
    if_not_False (emissions_inertia_global params) (fun inertia_global =>
      append_global (inertia_global_rule inertia_global));
    if_not_False (emissions_min_level params) (fun min_level =>
      append_global (min_level_rule min_level)) ].

(** *** Abatement and damage costs *)

Definition LBD_scaling : R := Quant common "40 GtCO2" "emissions_unit".

Definition LBD_factor_rule : grule := fun m t =>
  CEq (EG LBD_factor t)
      (EPow (EAdd (EDiv (ESub (ENum (py_sum
                                       (map (fun r =>
                                               baseline_cumulative (series m) t r)
                                            (regions m))))
                              (EG cumulative_emissions t))
                        (ENum LBD_scaling))
                  (ENum 1))
            (EPar log_LBD_rate)).

Definition LOT_factor_rule : grule := fun m t =>
  CEq (EG LOT_factor t)
      (EDiv (ENum 1) (EPow (EAdd (ENum 1) (EPar LOT_rate)) (ENum t))).

Definition learning_factor_rule : grule := fun m t =>
  CEq (EG learning_factor t) (EMul (EG LBD_factor t) (EG LOT_factor t)).

Definition damage_costs_rule : rrule := fun m t r =>
  CEq (ER damage_costs t r)
      (EMul (EIPar damage_factor r)
            (Edamage_fct (EG temperature t) (EPar damage_coeff) (EPar T0))).

Definition abatement_costs_rule : rrule := fun m t r =>
  CEq (ER abatement_costs t r)
      (EMul (EAC (ER relative_abatement t r) (EG learning_factor t)
                 (EPar MAC_gamma) (EPar MAC_beta))
            (ENum (baseline (series m) t r))).

Definition carbonprice_rule : rrule := fun m t r =>
  CEq (ER carbonprice t r)
      (EMAC (ER relative_abatement t r) (EG learning_factor t)
            (EPar MAC_gamma) (EPar MAC_beta)).

Definition abatement_and_damage_costs : list (State -> State) :=
  [ declare (Param_ LBD_rate (Some (ENum (economics_MAC_rho params))));
    declare (Param_ log_LBD_rate
               (Some (EDiv (ELog (EPar LBD_rate)) (ELog (ENum 2)))));
    declare (Var_t LBD_factor None None);
    declare (Var_t learning_factor None None);
    append_global LBD_factor_rule;
    declare (Param_ LOT_rate (Some (ENum 0)));
    declare (Var_t LOT_factor None None);
    append_global LOT_factor_rule;
    append_global learning_factor_rule;
    declare (Var_tr damage_costs None None);
    declare (Var_tr abatement_costs None None);
    declare (Var_tr carbonprice None None);
    declare (IParam_ damage_factor
               (map (fun rp => (fst rp,
                                match damage_factor_entry (snd rp) with
                                | Some f => f
                                | None => 1
                                end))
                    (params_regions params)));
    declare (Param_ damage_coeff
               (Some (ENum (economics_damages_coeff params))));
    declare (Param_ MAC_gamma
               (Some (ENum (Quant common (economics_MAC_gamma params)
                              "currency_unit/emissionsrate_unit"))));
    declare (Param_ MAC_beta (Some (ENum (economics_MAC_beta params))));
    extend_regional
      [damage_costs_rule; abatement_costs_rule; carbonprice_rule] ].

(** *** Cobb-Douglas *)

Definition GDP_gross_rule : rrule := fun m t r =>
  CEq (ER GDP_gross t r)
      (Ecalc_GDP (ENum (TFP (series m) t r)) (ENum (L m t r))
                 (ER capital_stock t r) (EPar alpha)).

Definition GDP_net_rule : rrule := fun m t r =>
  CEq (ER GDP_net t r)
      (ESub (EMul (ER GDP_gross t r) (ESub (ENum 1) (ER damage_costs t r)))
            (ER abatement_costs t r)).

Definition investments_rule : rrule := fun m t r =>
  CEq (ER investments t r) (EMul (EPar sr) (ER GDP_net t r)).

Definition consumption_rule : rrule := fun m t r =>
  CEq (ER consumption t r)
      (EMul (ESub (ENum 1) (EPar sr)) (ER GDP_net t r)).

Definition utility_rule : rrule := fun m t r =>
  CEq (ER utility t r)
      (EDiv (EMul (ENum (L m t r))
                  (ESub (EPow (EDiv (ER consumption t r) (ENum (L m t r)))
                              (ESub (ENum 1) (EPar elasmu)))
                        (ENum 1)))
            (ESub (ENum 1) (EPar elasmu))).

Definition capital_stockdot_rule : rrule := fun m t r =>
  CEq (ER capital_stockdot t r)
      (EAdd (EMul (ELog (ESub (ENum 1) (EPar dk))) (ER capital_stock t r))
            (ER investments t r)).

(** [initialize=lambda m: (1-m.sr)*m.GDP(0, m.regions.first())] *)
Definition consumption_initialize (m : Instance) (t : R) (r : region)
  : option expr :=
  match regions m with
  | first :: _ =>
      Some (EMul (ESub (ENum 1) (EPar sr)) (ENum (GDP (series m) 0 first)))
  | [] => None
  end.

Definition cobb_douglas : list (State -> State) :=
  [ declare (Param_ alpha (Some (ENum (economics_GDP_alpha params))));
    declare (Param_ dk
               (Some (ENum (economics_GDP_depreciation_of_capital params))));
    declare (Param_ sr None);
    declare (Param_ elasmu (Some (ENum (economics_elasmu params))));
    declare (Var_tr GDP_gross None None);
    declare (Var_tr GDP_net None None);
    declare (Var_tr investments None None);
    declare (Var_tr consumption (Some consumption_initialize) None);
    declare (Var_tr utility None None);
    extend_regional
      [GDP_gross_rule; GDP_net_rule; investments_rule; consumption_rule;
       utility_rule; capital_stockdot_rule] ].

(** *** Optimisation *)

Definition NPVdot_rule : grule := fun m t =>
  CEq (EG NPVdot t)
      (EMul (EExp (EMul (ENeg (EPar PRTP)) (ENum t)))
            (esum (map (fun r => ER utility t r) (regions m)))).

(** The generator [_init(m)], in the order of its [yield]s. *)
Definition _init (m : Instance) : list crel :=
  [CEq (EG temperature 0) (EPar T0)]
  ++ flat_map (fun r =>
       [ CEq (ER regional_emissions 0 r) (ENum (baseline (series m) 0 r));
         CEq (ER capital_stock 0 r) (EIPar init_capitalstock r);
         CEq (ER carbonprice 0 r) (ENum 0) ])
       (regions m)
  ++ [ CEq (EG global_emissions 0)
           (ENum (py_sum (map (fun r => baseline (series m) 0 r)
                              (regions m))));
       CEq (EG cumulative_emissions 0) (ENum 0);
       CEq (EG NPV 0) (ENum 0) ].

(** [for fct in global_constraints: ...; for fct in regional_constraints: ...] *)
Definition register_constraints (s : State) : State :=
  let s1 := fold_left (fun s fct => add_constraint (Constraint_t fct) s)
              (global_constraints s) s in
  fold_left (fun s fct => add_constraint (Constraint_tr fct) s)
    (regional_constraints s1) s1.

(** [lambda m: m.NPV[m.tf]] *)
Definition obj_rule (m : Instance) : option expr :=
  match value m tf with
  | Some t_end => Some (EG NPV t_end)
  | None => None
  end.

Definition optimisation : list (State -> State) :=
  [ declare (Param_ PRTP (Some (ENum (economics_PRTP params))));
    append_global NPVdot_rule;
    declare (ConstraintList _init);
    register_constraints;
    declare (Objective obj_rule maximize) ].

(** *** The whole module *)

Definition initial_state : State :=
  {| model := {| attributes := create_data common params;
                 components := [] |};
     global_constraints := [];
     regional_constraints := [] |}.

Definition abstract_model_state : State :=
  run (create_model ++ emission_equations ++ emission_constraints
       ++ abatement_and_damage_costs ++ cobb_douglas ++ optimisation)
      initial_state.

(** The model [m] once the module has run. *)
Definition abstract_model : Model := model abstract_model_state.

End AbstractModel.

(** ** Creating an instance *)

(** The trajectory used where an expression has no variables. *)
Definition no_variables : Trajectory :=
  {| gv := fun _ _ => 0; rv := fun _ _ _ => 0 |}.

Definition set_value (vals : param -> option R) (p : param) (v : option R)
  : param -> option R :=
  fun q => if param_eqb q p then v else vals q.

(** Scalar [Param]s are constructed in the order of their declaration.
    A value given in the instance data overrides [initialize]; a [Param]
    with neither has no value. *)
Fixpoint construct_params (common : Common) (data : param -> option R)
  (cs : list component) (vals : param -> option R) : param -> option R :=
  match cs with
  | [] => vals
  | Param_ p initialize :: rest =>
      let v :=
        match data p with
        | Some given => Some given
        | None =>
            match initialize with
            | Some e => eval common vals (fun _ _ => None) no_variables e
            | None => None
            end
        end in
      construct_params common data rest (set_value vals p v)
  | _ :: rest => construct_params common data rest vals
  end.

(** Lookup in the dictionary that initialises an indexed [Param]. *)
Fixpoint lookup (r : region) (d : list (region * R)) : option R :=
  match d with
  | [] => None
  | (k, v) :: rest => if String.eqb k r then Some v else lookup r rest
  end.

Fixpoint construct_iparams (cs : list component) (p : iparam) (r : region)
  : option R :=
  match cs with
  | [] => None
  | IParam_ q initialize :: rest =>
      if iparam_eqb q p then lookup r initialize
      else construct_iparams rest p r
  | _ :: rest => construct_iparams rest p r
  end.

Fixpoint construct_regions (cs : list component) : list region :=
  match cs with
  | [] => []
  | Set_regions initialize :: _ => initialize
  | _ :: rest => construct_regions rest
  end.

(** [m.create_instance(data)] as far as the rules can see it. *)
Definition create_instance (common : Common) (M : Model)
  (data : param -> option R) : Instance :=
  {| regions := construct_regions (components M);
     value := construct_params common data (components M) (fun _ => None);
     ivalue := construct_iparams (components M);
     series := attributes M |}.

(** Instance data that gives no value at all. *)
Definition no_data : param -> option R := fun _ => None.

(** ** Relations of an instance and feasible trajectories *)

Fixpoint bounds_of_t (cs : list component) : option (expr * expr) :=
  match cs with
  | [] => None
  | ContinuousSet_t lo hi :: _ => Some (lo, hi)
  | _ :: rest => bounds_of_t rest
  end.

(** The relations that the registered rules give at time [t]: one per
    [Constraint(m.t, ...)], one per region for each
    [Constraint(m.t, m.regions, ...)]. *)
Definition relations_of (m : Instance) (t : R) (c : component) : list crel :=
  match c with
  | Constraint_t rule => [rule m t]
  | Constraint_tr rule => map (rule m t) (regions m)
  | _ => []
  end.

Definition relations_at (M : Model) (m : Instance) (t : R) : list crel :=
  flat_map (relations_of m t) (components M).

(** The relations of the [ConstraintList]s. *)
Definition list_relations (M : Model) (m : Instance) : list crel :=
  flat_map (fun c => match c with ConstraintList rule => rule m | _ => [] end)
           (components M).

Definition is_constraint (c : component) : bool :=
  match c with
  | ConstraintList _ | Constraint_t _ | Constraint_tr _ => true
  | _ => false
  end.

(** The constraint components registered on a model. *)
Definition registered (M : Model) : list component :=
  filter is_constraint (components M).

Definition is_parameter (c : component) : bool :=
  match c with Param_ _ _ | IParam_ _ _ => true | _ => false end.

Definition is_variable (c : component) : bool :=
  match c with Var_t _ _ _ | Var_tr _ _ _ => true | _ => false end.

Definition is_derivative (c : component) : bool :=
  match c with DerivativeVar_t _ _ | DerivativeVar_tr _ _ => true | _ => false end.

Definition is_objective (c : component) : bool :=
  match c with Objective _ _ => true | _ => false end.

Definition is_set (c : component) : bool :=
  match c with Set_regions _ | ContinuousSet_t _ _ => true | _ => false end.

(** The sets, parameters, variables, derivative variables and objectives
    declared on a model, in the order of their declaration. *)
Definition sets (M : Model) : list component :=
  filter is_set (components M).
Definition parameters (M : Model) : list component :=
  filter is_parameter (components M).
Definition variables (M : Model) : list component :=
  filter is_variable (components M).
Definition derivatives (M : Model) : list component :=
  filter is_derivative (components M).
Definition objectives (M : Model) : list component :=
  filter is_objective (components M).

Section Feasible.

Variable common : Common.
Variable M : Model.
Variable m : Instance.

Definition value_in (x : Trajectory) (e : expr) : option R :=
  eval common (value m) (ivalue m) x e.

Definition satisfied (x : Trajectory) (c : crel) : Prop :=
  holds common (value m) (ivalue m) x c.

(** [t] lies in the continuous set [m.t]. *)
Definition in_t (t : R) : Prop :=
  match bounds_of_t (components M) with
  | Some (lo, hi) =>
      match value_in no_variables lo, value_in no_variables hi with
      | Some a, Some b => a <= t <= b
      | _, _ => False
      end
  | None => False
  end.

(** A trajectory is feasible when it respects the declared bounds, every
    [DerivativeVar] is the time derivative of its variable on [m.t],
    and every relation of the model holds: the initial conditions, and
    at each time of [m.t] the relations of the registered rules.  A
    trajectory is a function on all of [R], so the derivative at the two
    ends of [m.t] is two-sided; every continuously differentiable
    function on [m.t] extends to such a function. *)
Record feasible (x : Trajectory) : Prop := {
  feasible_bounds_t :
    forall v ini lo hi, In (Var_t v ini (Some (lo, hi))) (components M) ->
    forall t, in_t t -> lo <= gv x v t <= hi;
  feasible_bounds_tr :
    forall v ini lo hi, In (Var_tr v ini (Some (lo, hi))) (components M) ->
    forall t r, in_t t -> In r (regions m) -> lo <= rv x v t r <= hi;
  feasible_DerivativeVar_t :
    forall d v, In (DerivativeVar_t d v) (components M) ->
    forall t, in_t t -> derivable_pt_lim (gv x v) t (gv x d t);
  feasible_DerivativeVar_tr :
    forall d v, In (DerivativeVar_tr d v) (components M) ->
    forall t r, in_t t -> In r (regions m) ->
    derivable_pt_lim (fun s => rv x v s r) t (rv x d t r);
  feasible_init : Forall (satisfied x) (list_relations M m);
  feasible_relations :
    forall t, in_t t -> Forall (satisfied x) (relations_at M m t)
}.

End Feasible.

(** The instance of the module's model for a parameter set and instance
    data, its time set and its feasible trajectories. *)
Definition instance (common : Common) (params : Params)
  (data : param -> option R) : Instance :=
  create_instance common (abstract_model common params) data.

Definition in_time (common : Common) (params : Params)
  (data : param -> option R) (t : R) : Prop :=
  in_t common (abstract_model common params) (instance common params data) t.

Definition feasible_for (common : Common) (params : Params)
  (data : param -> option R) (x : Trajectory) : Prop :=
  feasible common (abstract_model common params)
    (instance common params data) x.

(** ** Reading relations *)

Fixpoint mentions (v : gvar) (e : expr) : bool :=
  match e with
  | ENum _ | EPar _ | EIPar _ _ | ER _ _ _ => false
  | EG w _ => gvar_eqb w v
  | EAdd a b | ESub a b | EMul a b | EDiv a b | EPow a b =>
      mentions v a || mentions v b
  | ENeg a | EExp a | ELog a => mentions v a
  | Edamage_fct a b c => mentions v a || mentions v b || mentions v c
  | EAC a b c d | EMAC a b c d | Ecalc_GDP a b c d =>
      mentions v a || mentions v b || mentions v c || mentions v d
  end.

(** An inequality in which the variable [v] occurs. *)
Definition inequality_on (v : gvar) (c : crel) : bool :=
  match c with
  | CLe a b | CGe a b => mentions v a || mentions v b
  | _ => false
  end.

(** An equation whose left-hand side is the variable [v] at some time
    (and, for a regional variable, at region [r]). *)
Definition equation_of_t (v : gvar) (c : crel) : bool :=
  match c with
  | CEq (EG w _) _ => gvar_eqb w v
  | _ => false
  end.

Definition equation_of_tr (v : rvar) (r : region) (c : crel) : bool :=
  match c with
  | CEq (ER w _ r') _ => rvar_eqb w v && String.eqb r' r
  | _ => false
  end.

Definition count (f : crel -> bool) (l : list crel) : nat :=
  List.length (filter f l).

(** ** The parameter sets that the specification calls configuration
    errors *)

Definition configuration_error (params : Params) : Prop :=
  time_end params <= time_start params \/ params_regions params = [].

(** ** The staged rules, written out *)

Definition optional {A B} (x : option A) (f : A -> B) : list B :=
  match x with Some a => [f a] | None => [] end.

(** The content of [global_constraints] when the module has run. *)
Definition global_rules (common : Common) (params : Params) : list grule :=
  [global_emissions_rule; cumulative_emissionsdot_rule; temperature_rule]
  ++ optional (emissions_carbonbudget params)
       (fun carbonbudget =>
          carbonbudget_rule (Quant common carbonbudget "emissions_unit"))
  ++ optional (emissions_inertia_global params) inertia_global_rule
  ++ optional (emissions_min_level params) (min_level_rule common)
  ++ [LBD_factor_rule common; LOT_factor_rule; learning_factor_rule;
      NPVdot_rule].

(** The content of [regional_constraints] when the module has run. *)
Definition regional_rules (params : Params) : list rrule :=
  [regional_emissions_rule]
  ++ optional (emissions_inertia_regional params) inertia_regional_rule
  ++ [damage_costs_rule; abatement_costs_rule; carbonprice_rule;
      GDP_gross_rule; GDP_net_rule; investments_rule; consumption_rule;
      utility_rule; capital_stockdot_rule].

(** ** A small scenario *)

(** One region, no baseline emissions, unit population, productivity and
    output, no damages and no abatement cost. *)
Definition demo_common : Common :=
  {| data_get_data := fun years _ _ variable _ =>
       map (fun _ => if String.eqb variable "emissions" then 0 else 1) years;
     get_TFP := fun years _ => map (fun _ => 1) years;
     Quant := fun _ _ => 1;
     damage_fct := fun _ _ _ => 0;
     AC := fun _ _ _ _ => 0;
     MAC := fun _ _ _ _ => 0;
     calc_GDP := fun _ _ _ _ => 1 |}.

Definition demo_params : Params :=
  {| time_start := 2020;
     time_end := 2100;
     params_regions :=
       [("WORLD"%string,
         {| initial_capital := "1 USD"; damage_factor_entry := None |})];
     SSP := "SSP2";
     temperature_initial := "1 delta_degC";
     temperature_TCRE := "1 delta_degC/(TtCO2)";
     emissions_carbonbudget := Some "1000 GtCO2"%string;
     emissions_inertia_regional := Some (-1);
     emissions_inertia_global := Some (-1);
     emissions_min_level := None;
     economics_MAC_rho := 1;
     economics_MAC_gamma := "1 USD/tCO2";
     economics_MAC_beta := 2;
     economics_damages_coeff := 0;
     economics_GDP_alpha := 0;
     economics_GDP_depreciation_of_capital := 0;
     economics_elasmu := 2;
     economics_PRTP := 0 |}.

(** The instance data gives the savings rate, which the module leaves
    without value. *)
Definition demo_data : param -> option R :=
  fun p => match p with sr => Some 0 | _ => None end.

Definition demo_model : Model := abstract_model demo_common demo_params.

Definition demo_instance : Instance :=
  instance demo_common demo_params demo_data.

(** Full abatement, everything else constant in time. *)
Definition demo_trajectory : Trajectory :=
  {| gv := fun v _ =>
       match v with
       | temperature | LBD_factor | learning_factor | LOT_factor => 1
       | _ => 0
       end;
     rv := fun v _ _ =>
       match v with
       | relative_abatement | capital_stock | GDP_gross | GDP_net
       | consumption => 1
       | _ => 0
       end |}.

(** The values of the parameters in the small scenario, and what its
    rules read from an instance. *)
Definition demo_values (p : param) : option R :=
  match p with
  | beginyear => Some 2020
  | endyear => Some 2100
  | tf | year2100 => Some (2100 - 2020)
  | T0 | TCRE | LBD_rate | MAC_gamma => Some 1
  | log_LBD_rate => Some (ln 1 / ln 2)
  | MAC_beta | elasmu => Some 2
  | LOT_rate | damage_coeff | alpha | dk | sr | PRTP => Some 0
  end.

Record demo_like (m : Instance) : Prop := {
  demo_regions : regions m = ["WORLD"%string];
  demo_value : forall p, value m p = demo_values p;
  demo_init_capitalstock :
    ivalue m init_capitalstock "WORLD"%string = Some 1;
  demo_damage_factor : ivalue m damage_factor "WORLD"%string = Some 1;
  demo_series_baseline : forall t r, baseline (series m) t r = 0;
  demo_series_population : forall t r, population (series m) t r = 1;
  demo_series_TFP : forall t r, TFP (series m) t r = 1;
  demo_series_baseline_cumulative :
    forall t r, baseline_cumulative (series m) t r = 0
}.

(** A parameter set with an empty time span and no region. *)
Definition empty_params : Params :=
  {| time_start := 2020;
     time_end := 2020;
     params_regions := [];
     SSP := "SSP2";
     temperature_initial := "1 delta_degC";
     temperature_TCRE := "1 delta_degC/(TtCO2)";
     emissions_carbonbudget := None;
     emissions_inertia_regional := None;
     emissions_inertia_global := None;
     emissions_min_level := None;
     economics_MAC_rho := 1;
     economics_MAC_gamma := "1 USD/tCO2";
     economics_MAC_beta := 2;
     economics_damages_coeff := 0;
     economics_GDP_alpha := 0;
     economics_GDP_depreciation_of_capital := 0;
     economics_elasmu := 2;
     economics_PRTP := 0 |}.

(** ** A second small scenario: no abatement *)

(** One region with the constant baseline 2 and no abatement, an
    emission floor and no carbon budget; everything else as in the
    first scenario. *)
Definition bau_common : Common :=
  {| data_get_data := fun years _ _ variable _ =>
       map (fun _ => if String.eqb variable "emissions" then 2 else 1) years;
     get_TFP := fun years _ => map (fun _ => 1) years;
     Quant := fun _ _ => 1;
     damage_fct := fun _ _ _ => 0;
     AC := fun _ _ _ _ => 0;
     MAC := fun _ _ _ _ => 0;
     calc_GDP := fun _ _ _ _ => 1 |}.

Definition bau_params : Params :=
  {| time_start := 2020;
     time_end := 2100;
     params_regions :=
       [("WORLD"%string,
         {| initial_capital := "1 USD"; damage_factor_entry := None |})];
     SSP := "SSP2";
     temperature_initial := "1 delta_degC";
     temperature_TCRE := "1 delta_degC/(TtCO2)";
     emissions_carbonbudget := None;
     emissions_inertia_regional := Some (-1);
     emissions_inertia_global := Some (-1);
     emissions_min_level := Some "1 GtCO2/yr"%string;
     economics_MAC_rho := 1;
     economics_MAC_gamma := "1 USD/tCO2";
     economics_MAC_beta := 2;
     economics_damages_coeff := 0;
     economics_GDP_alpha := 0;
     economics_GDP_depreciation_of_capital := 0;
     economics_elasmu := 2;
     economics_PRTP := 0 |}.

(** Emissions at the baseline, cumulative emissions and temperature
    growing linearly. *)
Definition bau_trajectory : Trajectory :=
  {| gv := fun v t =>
       match v with
       | temperature => 1 + 2 * t
       | cumulative_emissions => 2 * t
       | global_emissions | cumulative_emissionsdot => 2
       | LBD_factor | learning_factor | LOT_factor => 1
       | _ => 0
       end;
     rv := fun v _ _ =>
       match v with
       | regional_emissions => 2
       | capital_stock | GDP_gross | GDP_net | consumption => 1
       | _ => 0
       end |}.

Record bau_like (m : Instance) : Prop := {
  bau_regions : regions m = ["WORLD"%string];
  bau_value : forall p, value m p = demo_values p;
  bau_init_capitalstock :
    ivalue m init_capitalstock "WORLD"%string = Some 1;
  bau_damage_factor : ivalue m damage_factor "WORLD"%string = Some 1;
  bau_series_baseline : forall t r, baseline (series m) t r = 2;
  bau_series_population : forall t r, population (series m) t r = 1;
  bau_series_TFP : forall t r, TFP (series m) t r = 1;
  bau_series_baseline_cumulative :
    forall t r, baseline_cumulative (series m) t r = 2 * t
}.

(** The first scenario with an emission floor that its carbon budget
    cannot hold. *)
Definition tight_params : Params :=
  {| time_start := 2020;
     time_end := 2100;
     params_regions :=
       [("WORLD"%string,
         {| initial_capital := "1 USD"; damage_factor_entry := None |})];
     SSP := "SSP2";
     temperature_initial := "1 delta_degC";
     temperature_TCRE := "1 delta_degC/(TtCO2)";
     emissions_carbonbudget := Some "1000 GtCO2"%string;
     emissions_inertia_regional := None;
     emissions_inertia_global := None;
     emissions_min_level := Some "1 GtCO2/yr"%string;
     economics_MAC_rho := 1;
     economics_MAC_gamma := "1 USD/tCO2";
     economics_MAC_beta := 2;
     economics_damages_coeff := 0;
     economics_GDP_alpha := 0;
     economics_GDP_depreciation_of_capital := 0;
     economics_elasmu := 2;
     economics_PRTP := 0 |}.

(** A parameter set that ends in 2050, with a carbon budget and with
    elasmu equal to 1. *)
Definition short_params : Params :=
  {| time_start := 2020;
     time_end := 2050;
     params_regions :=
       [("WORLD"%string,
         {| initial_capital := "1 USD"; damage_factor_entry := None |})];
     SSP := "SSP2";
     temperature_initial := "1 delta_degC";
     temperature_TCRE := "1 delta_degC/(TtCO2)";
     emissions_carbonbudget := Some "1000 GtCO2"%string;
     emissions_inertia_regional := None;
     emissions_inertia_global := None;
     emissions_min_level := None;
     economics_MAC_rho := 1;
     economics_MAC_gamma := "1 USD/tCO2";
     economics_MAC_beta := 2;
     economics_damages_coeff := 0;
     economics_GDP_alpha := 0;
     economics_GDP_depreciation_of_capital := 0;
     economics_elasmu := 1;
     economics_PRTP := 0 |}.

(** ** Structure of the assembled model *)

Ltac run_module :=
  unfold abstract_model, abstract_model_state, global_rules, regional_rules,
    optional;
  cbn [run create_model emission_equations emission_constraints
       abatement_and_damage_costs cobb_douglas optimisation app fold_left];
  unfold if_not_False.

Ltac by_toggles params :=
  destruct (emissions_carbonbudget params),
           (emissions_inertia_regional params),
           (emissions_inertia_global params),
           (emissions_min_level params).

Lemma staged_global_constraints common params :
  global_constraints (abstract_model_state common params)
  = global_rules common params.
Proof. run_module. by_toggles params; reflexivity. Qed.

Lemma staged_regional_constraints common params :
  regional_constraints (abstract_model_state common params)
  = regional_rules params.
Proof. run_module. by_toggles params; reflexivity. Qed.

Lemma registered_model common params :
  registered (abstract_model common params)
  = ConstraintList _init
    :: map Constraint_t (global_rules common params)
    ++ map Constraint_tr (regional_rules params).
Proof. unfold registered. run_module. by_toggles params; reflexivity. Qed.

Lemma parameters_model common params :
  parameters (abstract_model common params)
  = [ Param_ beginyear (Some (ENum (time_start params)));
      Param_ endyear (Some (ENum (time_end params)));
      Param_ tf (Some (ESub (EPar endyear) (EPar beginyear)));
      Param_ year2100 (Some (ESub (ENum 2100) (EPar beginyear)));
      IParam_ init_capitalstock
        (map (fun rp => (fst rp,
                         Quant common (initial_capital (snd rp))
                           "currency_unit"))
             (params_regions params));
      Param_ T0
        (Some (ENum (Quant common (temperature_initial params)
                       "temperature_unit")));
      Param_ TCRE
        (Some (ENum (Quant common (temperature_TCRE params)
                       "(temperature_unit)/(emissions_unit)")));
      Param_ LBD_rate (Some (ENum (economics_MAC_rho params)));
      Param_ log_LBD_rate
        (Some (EDiv (ELog (EPar LBD_rate)) (ELog (ENum 2))));
      Param_ LOT_rate (Some (ENum 0));
      IParam_ damage_factor
        (map (fun rp => (fst rp,
                         match damage_factor_entry (snd rp) with
                         | Some f => f
                         | None => 1
                         end))
             (params_regions params));
      Param_ damage_coeff (Some (ENum (economics_damages_coeff params)));
      Param_ MAC_gamma
        (Some (ENum (Quant common (economics_MAC_gamma params)
                       "currency_unit/emissionsrate_unit")));
      Param_ MAC_beta (Some (ENum (economics_MAC_beta params)));
      Param_ alpha (Some (ENum (economics_GDP_alpha params)));
      Param_ dk
        (Some (ENum (economics_GDP_depreciation_of_capital params)));
      Param_ sr None;
      Param_ elasmu (Some (ENum (economics_elasmu params)));
      Param_ PRTP (Some (ENum (economics_PRTP params))) ].
Proof. unfold parameters. run_module. by_toggles params; reflexivity. Qed.

Lemma variables_model common params :
  variables (abstract_model common params)
  = [ Var_t temperature None None;
      Var_t cumulative_emissions (Some (ENum 0)) None;
      Var_t global_emissions None None;
      Var_t NPV None None;
      Var_tr relative_abatement
        (Some (fun _ _ _ => Some (ENum 0))) (Some (0, 2));
      Var_tr capital_stock
        (Some (fun _ _ r => Some (EIPar init_capitalstock r))) None;
      Var_tr regional_emissions None None;
      Var_t LBD_factor None None;
      Var_t learning_factor None None;
      Var_t LOT_factor None None;
      Var_tr damage_costs None None;
      Var_tr abatement_costs None None;
      Var_tr carbonprice None None;
      Var_tr GDP_gross None None;
      Var_tr GDP_net None None;
      Var_tr investments None None;
      Var_tr consumption (Some consumption_initialize) None;
      Var_tr utility None None ].
Proof. unfold variables. run_module. by_toggles params; reflexivity. Qed.

Lemma derivatives_model common params :
  derivatives (abstract_model common params)
  = [ DerivativeVar_t cumulative_emissionsdot cumulative_emissions;
      DerivativeVar_t global_emissionsdot global_emissions;
      DerivativeVar_t NPVdot NPV;
      DerivativeVar_tr capital_stockdot capital_stock;
      DerivativeVar_tr regional_emissionsdot regional_emissions ].
Proof. unfold derivatives. run_module. by_toggles params; reflexivity. Qed.

Lemma sets_model common params :
  sets (abstract_model common params)
  = [ ContinuousSet_t (ENum 0) (EPar tf);
      Set_regions (map fst (params_regions params)) ].
Proof. unfold sets. run_module. by_toggles params; reflexivity. Qed.

Lemma objectives_model common params :
  objectives (abstract_model common params) = [Objective obj_rule maximize].
Proof. unfold objectives. run_module. by_toggles params; reflexivity. Qed.

Lemma relations_at_model common params m t :
  relations_at (abstract_model common params) m t
  = map (fun rule => rule m t) (global_rules common params)
    ++ flat_map (fun rule => map (rule m t) (regions m))
         (regional_rules params).
Proof. unfold relations_at. run_module. by_toggles params; reflexivity. Qed.

Lemma list_relations_model common params m :
  list_relations (abstract_model common params) m = _init m.
Proof.
  unfold list_relations. run_module.
  by_toggles params; cbn; rewrite app_nil_r; reflexivity.
Qed.

Lemma bounds_of_t_model common params :
  bounds_of_t (components (abstract_model common params))
  = Some (ENum 0, EPar tf).
Proof. run_module. by_toggles params; reflexivity. Qed.

Lemma regions_model common params data :
  regions (instance common params data) = map fst (params_regions params).
Proof. unfold instance, create_instance. run_module. by_toggles params; reflexivity. Qed.

Lemma series_model common params data :
  series (instance common params data) = create_data common params.
Proof. unfold instance, create_instance. run_module. by_toggles params; reflexivity. Qed.

(** Only the parameter declarations matter for the values of the
    parameters. *)
Lemma construct_params_parameters common data cs :
  forall vals,
  construct_params common data cs vals
  = construct_params common data (filter is_parameter cs) vals.
Proof.
  induction cs as [| c cs IH]; intros vals; [reflexivity |].
  destruct c; cbn [filter is_parameter construct_params]; apply IH.
Qed.

Lemma construct_iparams_parameters cs p r :
  construct_iparams cs p r = construct_iparams (filter is_parameter cs) p r.
Proof.
  induction cs as [| c cs IH]; [reflexivity |].
  destruct c; cbn [filter is_parameter construct_iparams];
    try apply IH.
  destruct (iparam_eqb p0 p); [reflexivity | apply IH].
Qed.

Lemma value_model common params data :
  value (instance common params data)
  = construct_params common data
      (parameters (abstract_model common params)) (fun _ => None).
Proof.
  unfold instance, create_instance, parameters; cbn [value].
  apply construct_params_parameters.
Qed.

Lemma ivalue_model common params data p r :
  ivalue (instance common params data) p r
  = construct_iparams (parameters (abstract_model common params)) p r.
Proof.
  unfold instance, create_instance, parameters; cbn [ivalue].
  apply construct_iparams_parameters.
Qed.

(** The values of some parameters in an instance.  The instance data
    take precedence; without them the value is the one the module
    computes from the parameter set; [sr] has no other source than the
    instance data. *)
Ltac param_value :=
  rewrite value_model, parameters_model;
  cbn [construct_params eval bind]; unfold set_value; cbn [param_eqb].

Lemma value_sr common params data :
  value (instance common params data) sr = data sr.
Proof. param_value. destruct (data sr); reflexivity. Qed.

Lemma value_tf common params data :
  data beginyear = None -> data endyear = None -> data tf = None ->
  value (instance common params data) tf
  = Some (time_end params - time_start params).
Proof. intros Hb He Ht. param_value. now rewrite Ht, He, Hb. Qed.

Lemma value_year2100 common params data :
  data beginyear = None -> data year2100 = None ->
  value (instance common params data) year2100
  = Some (2100 - time_start params).
Proof. intros Hb Hy. param_value. now rewrite Hy, Hb. Qed.

Lemma value_T0 common params data :
  data T0 = None ->
  value (instance common params data) T0
  = Some (Quant common (temperature_initial params) "temperature_unit").
Proof. intros H0. param_value. now rewrite H0. Qed.

Lemma value_LOT_rate common params data :
  data LOT_rate = None ->
  value (instance common params data) LOT_rate = Some 0.
Proof. intros H0. param_value. now rewrite H0. Qed.

Lemma value_PRTP common params data :
  data PRTP = None ->
  value (instance common params data) PRTP = Some (economics_PRTP params).
Proof. intros H0. param_value. now rewrite H0. Qed.

(** Membership in the model through the lists above. *)
Lemma registered_In (M : Model) c :
  In c (registered M) -> In c (components M).
Proof. unfold registered. intros H. now apply filter_In in H. Qed.

Lemma derivatives_In (M : Model) c :
  is_derivative c = true ->
  In c (components M) <-> In c (derivatives M).
Proof. intros Hc. unfold derivatives. rewrite filter_In. tauto. Qed.

Lemma variables_In (M : Model) c :
  is_variable c = true ->
  In c (components M) <-> In c (variables M).
Proof. intros Hc. unfold variables. rewrite filter_In. tauto. Qed.

Lemma parameters_In (M : Model) c :
  is_parameter c = true ->
  In c (components M) <-> In c (parameters M).
Proof. intros Hc. unfold parameters. rewrite filter_In. tauto. Qed.

Lemma sets_In (M : Model) c :
  is_set c = true ->
  In c (components M) <-> In c (sets M).
Proof. intros Hc. unfold sets. rewrite filter_In. tauto. Qed.

Lemma objectives_In (M : Model) c :
  is_objective c = true ->
  In c (components M) <-> In c (objectives M).
Proof. intros Hc. unfold objectives. rewrite filter_In. tauto. Qed.

(** From here on the model is used through the lemmas above. *)
Opaque abstract_model abstract_model_state instance.

(** ** Values of sums *)

Lemma eval_fold_EAdd common va iv x (f : region -> expr) (g : region -> R) :
  (forall r, eval common va iv x (f r) = Some (g r)) ->
  forall l e u, eval common va iv x e = Some u ->
  eval common va iv x (fold_left EAdd (map f l) e)
  = Some (fold_left Rplus (map g l) u).
Proof.
  intros Hf l; induction l as [| r l IH]; intros e u He; cbn [map fold_left].
  - exact He.
  - apply IH. cbn [eval]. rewrite He, Hf. reflexivity.
Qed.

Lemma eval_esum_ER common va iv x v t l :
  eval common va iv x (esum (map (fun r => ER v t r) l))
  = Some (py_sum (map (fun r => rv x v t r) l)).
Proof.
  unfold esum, py_sum.
  apply (eval_fold_EAdd common va iv x (fun r => ER v t r)
           (fun r => rv x v t r)); reflexivity.
Qed.

Lemma fold_Rplus_zero (g : region -> R) l :
  (forall r, In r l -> g r = 0) ->
  forall u, fold_left Rplus (map g l) u = u.
Proof.
  induction l as [| r l IH]; intros Hz u; cbn [map fold_left].
  - reflexivity.
  - rewrite IH by (intros; apply Hz; now right).
    rewrite (Hz r) by now left. lra.
Qed.

Lemma py_sum_zero (g : region -> R) l :
  (forall r, In r l -> g r = 0) -> py_sum (map g l) = 0.
Proof. intros Hz. unfold py_sum. now apply fold_Rplus_zero. Qed.

(** ** Relations that hold *)

Lemma satisfied_CEq common m x a b :
  satisfied common m x (CEq a b) ->
  exists u, value_in common m x a = Some u /\ value_in common m x b = Some u.
Proof.
  unfold satisfied, value_in; cbn [holds].
  destruct (eval common (value m) (ivalue m) x a) as [u |]; [| tauto].
  destruct (eval common (value m) (ivalue m) x b) as [w |]; [| tauto].
  intros ->; eauto.
Qed.

Lemma satisfied_CLe common m x a b :
  satisfied common m x (CLe a b) ->
  exists u w, value_in common m x a = Some u
              /\ value_in common m x b = Some w /\ u <= w.
Proof.
  unfold satisfied, value_in; cbn [holds].
  destruct (eval common (value m) (ivalue m) x a) as [u |]; [| tauto].
  destruct (eval common (value m) (ivalue m) x b) as [w |]; [| tauto].
  eauto.
Qed.

Lemma bind_Some {A B} (o : option A) (f : A -> option B) b :
  bind o f = Some b -> exists a, o = Some a /\ f a = Some b.
Proof. destruct o as [a |]; cbn; [eauto | discriminate]. Qed.

Lemma in_time_iff common params data t :
  in_time common params data t <->
  exists b, value (instance common params data) tf = Some b /\ 0 <= t <= b.
Proof.
  unfold in_time, in_t. rewrite bounds_of_t_model.
  unfold value_in; cbn [eval].
  destruct (value (instance common params data) tf) as [b |].
  - split; [intros H; exists b; now split | intros (b' & [= <-] & H); exact H].
  - split; [intros [] | intros (b' & [=] & _)].
Qed.

Lemma feasible_global_rule common params data x rule t :
  feasible_for common params data x ->
  In rule (global_rules common params) ->
  in_time common params data t ->
  satisfied common (instance common params data) x
    (rule (instance common params data) t).
Proof.
  intros F Hin Ht.
  pose proof (feasible_relations _ _ _ _ F t Ht) as H.
  rewrite Forall_forall in H. apply H.
  rewrite relations_at_model. apply in_or_app; left.
  now apply (in_map (fun rule => rule (instance common params data) t)).
Qed.

Lemma feasible_regional_rule common params data x rule t r :
  feasible_for common params data x ->
  In rule (regional_rules params) ->
  in_time common params data t ->
  In r (regions (instance common params data)) ->
  satisfied common (instance common params data) x
    (rule (instance common params data) t r).
Proof.
  intros F Hin Ht Hr.
  pose proof (feasible_relations _ _ _ _ F t Ht) as H.
  rewrite Forall_forall in H. apply H.
  rewrite relations_at_model. apply in_or_app; right.
  apply in_flat_map. exists rule. split; [assumption |].
  now apply in_map.
Qed.

Lemma feasible_initial_condition common params data x c :
  feasible_for common params data x ->
  In c (_init (instance common params data)) ->
  satisfied common (instance common params data) x c.
Proof.
  intros F Hin.
  pose proof (feasible_init _ _ _ _ F) as H.
  rewrite list_relations_model in H.
  rewrite Forall_forall in H. now apply H.
Qed.

(** ** What is registered *)

Lemma registered_global common params rule :
  In rule (global_rules common params) ->
  In (Constraint_t rule) (components (abstract_model common params)).
Proof.
  intros H. apply registered_In. rewrite registered_model.
  right. apply in_or_app; left. now apply in_map.
Qed.

Lemma registered_regional common params rule :
  In rule (regional_rules params) ->
  In (Constraint_tr rule) (components (abstract_model common params)).
Proof.
  intros H. apply registered_In. rewrite registered_model.
  right. apply in_or_app; right. now apply in_map.
Qed.

Lemma In_regional_emissions_rule params :
  In regional_emissions_rule (regional_rules params).
Proof. unfold regional_rules. now left. Qed.

Lemma In_fixed_regional_rule params rule :
  In rule [damage_costs_rule; abatement_costs_rule; carbonprice_rule;
           GDP_gross_rule; GDP_net_rule; investments_rule; consumption_rule;
           utility_rule; capital_stockdot_rule] ->
  In rule (regional_rules params).
Proof.
  intros H. unfold regional_rules.
  apply in_or_app; right. apply in_or_app; now right.
Qed.

Lemma In_first_global_rule common params rule :
  In rule [global_emissions_rule; cumulative_emissionsdot_rule;
           temperature_rule] ->
  In rule (global_rules common params).
Proof. intros H. unfold global_rules. apply in_or_app; now left. Qed.

Lemma In_last_global_rule common params rule :
  In rule [LBD_factor_rule common; LOT_factor_rule; learning_factor_rule;
           NPVdot_rule] ->
  In rule (global_rules common params).
Proof.
  intros H. unfold global_rules.
  do 4 (apply in_or_app; right). exact H.
Qed.

Lemma In_carbonbudget_rule common params carbonbudget :
  emissions_carbonbudget params = Some carbonbudget ->
  In (carbonbudget_rule (Quant common carbonbudget "emissions_unit"))
     (global_rules common params).
Proof.
  intros H. unfold global_rules. rewrite H.
  apply in_or_app; right. apply in_or_app; left. now left.
Qed.

(** ** The emission identity *)

(** Reading the two sides of a satisfied equation. *)
Ltac sides H u Hl Hr :=
  apply satisfied_CEq in H; destruct H as (u & Hl & Hr);
  unfold value_in in Hl, Hr.

Lemma regional_emissions_value common params data x t r :
  feasible_for common params data x ->
  in_time common params data t ->
  In r (regions (instance common params data)) ->
  rv x regional_emissions t r
  = (1 - rv x relative_abatement t r)
    * baseline (series (instance common params data)) t r.
Proof.
  intros F Ht Hr.
  pose proof (feasible_regional_rule common params data x _ t r F
                (In_regional_emissions_rule params) Ht Hr) as H.
  sides H u Hl Hr'.
  cbn [eval bind regional_emissions_rule] in Hl, Hr'.
  injection Hl as <-. injection Hr' as Hr'. symmetry; exact Hr'.
Qed.

(** C1: the regional-emissions relation is registered on the model, and
    on every feasible trajectory, at every time of the time set and for
    every region of the model, regional emissions equal
    (1 - relative abatement) times the baseline. *)
Theorem regional_emissions_identity common params data x t r :
  feasible_for common params data x ->
  in_time common params data t ->
  In r (regions (instance common params data)) ->
  In (Constraint_tr regional_emissions_rule)
     (components (abstract_model common params))
  /\ rv x regional_emissions t r
     = (1 - rv x relative_abatement t r)
       * baseline (series (instance common params data)) t r.
Proof.
  intros F Ht Hr. split.
  - apply registered_regional, In_regional_emissions_rule.
  - now apply regional_emissions_value.
Qed.

(** ** Initial conditions *)

Lemma In_init_first (m : Instance) :
  In (CEq (EG temperature 0) (EPar T0)) (_init m).
Proof. unfold _init. apply in_or_app; left. now left. Qed.

Lemma In_init_region (m : Instance) r c :
  In r (regions m) ->
  In c [ CEq (ER regional_emissions 0 r) (ENum (baseline (series m) 0 r));
         CEq (ER capital_stock 0 r) (EIPar init_capitalstock r);
         CEq (ER carbonprice 0 r) (ENum 0) ] ->
  In c (_init m).
Proof.
  intros Hr Hc. unfold _init. apply in_or_app; right. apply in_or_app; left.
  apply in_flat_map. exists r. now split.
Qed.

Lemma In_init_last (m : Instance) c :
  In c [ CEq (EG global_emissions 0)
             (ENum (py_sum (map (fun r => baseline (series m) 0 r)
                                (regions m))));
         CEq (EG cumulative_emissions 0) (ENum 0);
         CEq (EG NPV 0) (ENum 0) ] ->
  In c (_init m).
Proof.
  intros Hc. unfold _init. apply in_or_app; right. apply in_or_app; now right.
Qed.

(** C4: on every feasible trajectory the temperature at time 0 is the
    value of the parameter T0, cumulative emissions and NPV at time 0
    are 0, and the capital stock of every region at time 0 is the value
    of init_capitalstock for that region. *)
Theorem values_at_time_0 common params data x :
  feasible_for common params data x ->
  value (instance common params data) T0 = Some (gv x temperature 0)
  /\ gv x cumulative_emissions 0 = 0
  /\ gv x NPV 0 = 0
  /\ forall r, In r (regions (instance common params data)) ->
       ivalue (instance common params data) init_capitalstock r
       = Some (rv x capital_stock 0 r).
Proof.
  intros F.
  pose proof (feasible_initial_condition common params data x) as I.
  repeat split.
  - pose proof (I _ F (In_init_first _)) as H. sides H u Hl Hr.
    cbn [eval] in *. injection Hl as <-. exact Hr.
  - pose proof (I _ F (In_init_last _ _ (or_intror (or_introl eq_refl)))) as H.
    sides H u Hl Hr. cbn [eval] in *.
    injection Hl as <-. injection Hr as Hr. symmetry; exact Hr.
  - pose proof (I _ F (In_init_last _ _
                         (or_intror (or_intror (or_introl eq_refl))))) as H.
    sides H u Hl Hr. cbn [eval] in *.
    injection Hl as <-. injection Hr as Hr. symmetry; exact Hr.
  - intros r Hin.
    pose proof (I _ F (In_init_region _ r _ Hin
                         (or_intror (or_introl eq_refl)))) as H.
    sides H u Hl Hr. cbn [eval] in *. injection Hl as <-. exact Hr.
Qed.

(** ** The carbon price at time 0 *)

Lemma In_relations_at_regional common params m t r rule :
  In rule (regional_rules params) -> In r (regions m) ->
  In (rule m t r) (relations_at (abstract_model common params) m t).
Proof.
  intros Hrule Hr. rewrite relations_at_model. apply in_or_app; right.
  apply in_flat_map. exists rule. split; [assumption | now apply in_map].
Qed.

Lemma In_relations_at_global common params m t rule :
  In rule (global_rules common params) ->
  In (rule m t) (relations_at (abstract_model common params) m t).
Proof.
  intros Hrule. rewrite relations_at_model. apply in_or_app; left.
  now apply (in_map (fun rule => rule m t)).
Qed.

Lemma In_carbonprice_rule params :
  In carbonprice_rule (regional_rules params).
Proof. apply In_fixed_regional_rule. cbn. tauto. Qed.

(** C10: for every region the carbon price at time 0 is constrained by
    the registered carbon-price relation taken at time 0 and by the
    initial condition that sets it to 0; so on every feasible trajectory
    the marginal abatement cost at time 0 is 0. *)
Theorem carbonprice_constrained_twice common params data x r :
  feasible_for common params data x ->
  in_time common params data 0 ->
  In r (regions (instance common params data)) ->
  In (CEq (ER carbonprice 0 r)
          (EMAC (ER relative_abatement 0 r) (EG learning_factor 0)
                (EPar MAC_gamma) (EPar MAC_beta)))
     (relations_at (abstract_model common params)
        (instance common params data) 0)
  /\ In (CEq (ER carbonprice 0 r) (ENum 0))
        (list_relations (abstract_model common params)
           (instance common params data))
  /\ exists gamma beta,
       value (instance common params data) MAC_gamma = Some gamma
       /\ value (instance common params data) MAC_beta = Some beta
       /\ MAC common (rv x relative_abatement 0 r)
            (gv x learning_factor 0) gamma beta = 0.
Proof.
  intros F Ht Hr.
  assert (Hinit : In (CEq (ER carbonprice 0 r) (ENum 0))
                     (_init (instance common params data))).
  { apply (In_init_region _ r); [assumption | cbn; tauto]. }
  split; [| split].
  - apply (In_relations_at_regional common params _ 0 r carbonprice_rule);
      [apply In_carbonprice_rule | assumption].
  - rewrite list_relations_model. exact Hinit.
  - pose proof (feasible_regional_rule common params data x _ 0 r F
                  (In_carbonprice_rule params) Ht Hr) as H.
    pose proof (feasible_initial_condition common params data x _ F Hinit)
      as H0.
    sides H u Hl Hr'. sides H0 w Hl0 Hr0.
    cbn [eval bind carbonprice_rule] in Hl, Hr', Hl0, Hr0.
    destruct (value (instance common params data) MAC_gamma) as [gamma |];
      [| discriminate].
    destruct (value (instance common params data) MAC_beta) as [beta |];
      [| discriminate].
    cbn [bind] in Hr'. exists gamma, beta. repeat split.
    injection Hl as <-. injection Hr' as Hr'. injection Hl0 as <-.
    injection Hr0 as Hr0. rewrite Hr', <- Hr0. reflexivity.
Qed.

(** ** The objective *)

Lemma In_NPVdot_rule common params :
  In NPVdot_rule (global_rules common params).
Proof. apply In_last_global_rule. cbn. tauto. Qed.

(** C5: NPVdot is declared as the time derivative of NPV, the relation
    NPVdot(t) == exp(-PRTP * t) * sum of the regional utilities is
    registered, so that on every feasible trajectory NPV has that
    derivative at every time of the time set; the only objective of the
    model is to maximize NPV at tf. *)
Theorem NPV_equation_and_objective common params data x t :
  feasible_for common params data x ->
  in_time common params data t ->
  In (DerivativeVar_t NPVdot NPV) (components (abstract_model common params))
  /\ In (Constraint_t NPVdot_rule)
        (components (abstract_model common params))
  /\ (exists prtp,
        value (instance common params data) PRTP = Some prtp
        /\ derivable_pt_lim (gv x NPV) t
             (exp (- prtp * t)
              * py_sum (map (fun r => rv x utility t r)
                            (regions (instance common params data)))))
  /\ objectives (abstract_model common params) = [Objective obj_rule maximize]
  /\ exists t_end,
       value (instance common params data) tf = Some t_end
       /\ obj_rule (instance common params data) = Some (EG NPV t_end).
Proof.
  intros F Ht.
  assert (HD : In (DerivativeVar_t NPVdot NPV)
                  (components (abstract_model common params))).
  { apply derivatives_In; [reflexivity |].
    rewrite derivatives_model. cbn. tauto. }
  split; [exact HD |].
  split; [apply registered_global, In_NPVdot_rule |].
  split; [| split; [apply objectives_model |]].
  - pose proof (feasible_global_rule common params data x _ t F
                  (In_NPVdot_rule common params) Ht) as H.
    sides H u Hl Hr. cbn [eval bind NPVdot_rule] in Hl, Hr.
    rewrite eval_esum_ER in Hr.
    destruct (value (instance common params data) PRTP) as [prtp |];
      [| discriminate].
    cbn [bind] in Hr. exists prtp. split; [reflexivity |].
    injection Hl as <-. injection Hr as Hr. rewrite Hr.
    exact (feasible_DerivativeVar_t _ _ _ _ F NPVdot NPV HD t Ht).
  - apply in_time_iff in Ht. destruct Ht as (b & Hb & _).
    exists b. split; [exact Hb |]. unfold obj_rule. now rewrite Hb.
Qed.

(** ** The carbon budget *)

Lemma mentions_esum_ER v t (l : list region) w e :
  mentions v e = false ->
  mentions v (fold_left EAdd (map (fun r => ER w t r) l) e) = false.
Proof.
  revert e. induction l as [| r l IH]; intros e He; cbn [map fold_left].
  - exact He.
  - apply IH. cbn [mentions]. now rewrite He.
Qed.

(** Among the relations registered at a time, an inequality in which
    cumulative emissions occur can only come from the carbon budget
    rule. *)
Lemma inequality_on_cumulative_emissions common params m t c :
  In c (relations_at (abstract_model common params) m t) ->
  inequality_on cumulative_emissions c = true ->
  exists carbonbudget,
    emissions_carbonbudget params = Some carbonbudget
    /\ c = carbonbudget_rule (Quant common carbonbudget "emissions_unit") m t.
Proof.
  rewrite relations_at_model. intros Hin Hc.
  apply in_app_or in Hin. destruct Hin as [Hin | Hin].
  - unfold global_rules, optional in Hin.
    destruct (emissions_carbonbudget params) as [carbonbudget |];
      destruct (emissions_inertia_global params);
      destruct (emissions_min_level params);
      cbn [map app In] in Hin;
      repeat (destruct Hin as [Hin | Hin];
              [ try (exists carbonbudget; split;
                       [reflexivity | symmetry; exact Hin]);
                subst c; try discriminate Hc;
                cbn [inequality_on mentions gvar_eqb orb
                       global_emissions_rule NPVdot_rule] in Hc;
                unfold esum in Hc;
                rewrite ?mentions_esum_ER in Hc by reflexivity;
                discriminate Hc
              | ]);
      destruct Hin.
  - apply in_flat_map in Hin. destruct Hin as (rule & Hrule & Hin).
    apply in_map_iff in Hin. destruct Hin as (r & <- & _).
    unfold regional_rules, optional in Hrule.
    destruct (emissions_inertia_regional params);
      cbn [app In] in Hrule;
      repeat (destruct Hrule as [Hrule | Hrule];
              [subst rule; discriminate Hc |]);
      destruct Hrule.
Qed.

(** C2: with a carbon budget B, on every feasible trajectory cumulative
    emissions are at most the budget at every time from year2100 on, and
    at a time before year2100 the budget rule is skipped: no inequality
    on cumulative emissions is registered there; without a carbon budget
    no inequality on cumulative emissions is registered at any time or
    among the initial conditions, and the variable is declared without
    bounds. *)
Theorem carbon_budget common params data :
  (forall carbonbudget x t y2100,
     emissions_carbonbudget params = Some carbonbudget ->
     feasible_for common params data x ->
     in_time common params data t ->
     value (instance common params data) year2100 = Some y2100 ->
     t >= y2100 ->
     gv x cumulative_emissions t
     <= Quant common carbonbudget "emissions_unit")
  /\ (forall carbonbudget t y2100,
        emissions_carbonbudget params = Some carbonbudget ->
        value (instance common params data) year2100 = Some y2100 ->
        t < y2100 ->
        carbonbudget_rule (Quant common carbonbudget "emissions_unit")
          (instance common params data) t = CSkip
        /\ forall c,
             In c (relations_at (abstract_model common params)
                     (instance common params data) t) ->
             inequality_on cumulative_emissions c = false)
  /\ (emissions_carbonbudget params = None ->
      (forall initialize bounds,
         In (Var_t cumulative_emissions initialize bounds)
            (components (abstract_model common params)) ->
         bounds = None)
      /\ (forall c,
            In c (list_relations (abstract_model common params)
                    (instance common params data)) ->
            inequality_on cumulative_emissions c = false)
      /\ forall t c,
           In c (relations_at (abstract_model common params)
                   (instance common params data) t) ->
           inequality_on cumulative_emissions c = false).
Proof.
  split; [| split].
  - intros carbonbudget x t y2100 HB F Ht Hy Hge.
    pose proof (feasible_global_rule common params data x _ t F
                  (In_carbonbudget_rule common params carbonbudget HB) Ht)
      as H.
    unfold carbonbudget_rule in H. rewrite Hy in H.
    destruct (Rge_dec t y2100) as [_ | Hn]; [| contradiction].
    apply satisfied_CLe in H. destruct H as (u & w & Hu & Hw & Hle).
    unfold value_in in Hu, Hw. cbn [eval bind] in Hu, Hw.
    injection Hu as <-. injection Hw as <-. lra.
  - intros carbonbudget t y2100 HB Hy Hlt.
    assert (Hskip : carbonbudget_rule
                      (Quant common carbonbudget "emissions_unit")
                      (instance common params data) t = CSkip).
    { unfold carbonbudget_rule. rewrite Hy.
      destruct (Rge_dec t y2100) as [Hge | _]; [lra | reflexivity]. }
    split; [exact Hskip |].
    intros c Hin. destruct (inequality_on cumulative_emissions c) eqn:Hc;
      [| reflexivity].
    destruct (inequality_on_cumulative_emissions _ _ _ _ _ Hin Hc)
      as (carbonbudget' & HB' & ->).
    rewrite HB in HB'. injection HB' as <-.
    rewrite Hskip in Hc. discriminate Hc.
  - intros HB. split; [| split].
    + intros initialize bounds Hin.
      apply variables_In in Hin; [| reflexivity].
      rewrite variables_model in Hin. cbn [In] in Hin.
      repeat (destruct Hin as [Hin | Hin];
              [try discriminate Hin; injection Hin as _ <-; reflexivity |]).
      destruct Hin.
    + intros c Hin. rewrite list_relations_model in Hin.
      unfold _init in Hin.
      apply in_app_or in Hin. destruct Hin as [[<- | []] | Hin];
        [reflexivity |].
      apply in_app_or in Hin. destruct Hin as [Hin | Hin].
      * apply in_flat_map in Hin. destruct Hin as (r & _ & Hin).
        cbn [In] in Hin.
        repeat (destruct Hin as [<- | Hin]; [reflexivity |]).
        destruct Hin.
      * cbn [In] in Hin.
        repeat (destruct Hin as [<- | Hin]; [reflexivity |]).
        destruct Hin.
    + intros t c Hin.
      destruct (inequality_on cumulative_emissions c) eqn:Hc; [| reflexivity].
      destruct (inequality_on_cumulative_emissions _ _ _ _ _ Hin Hc)
        as (carbonbudget' & HB' & _).
      rewrite HB in HB'. discriminate HB'.
Qed.

(** ** Learning at time 0 *)

Lemma trapz_constant_x c : forall y x,
  Forall (fun v => v = c) x -> np.trapz y x = 0.
Proof.
  induction y as [| y0 y IH]; intros x Hx; [reflexivity |].
  destruct y as [| y1 y]; [reflexivity |].
  destruct x as [| x0 x]; [reflexivity |].
  destruct x as [| x1 x]; [reflexivity |].
  change (np.trapz (y0 :: y1 :: y) (x0 :: x1 :: x))
    with ((x1 - x0) * (y1 + y0) / 2 + np.trapz (y1 :: y) (x1 :: x)).
  inversion Hx as [| ? ? H0 Hx']; subst.
  inversion Hx' as [| ? ? H1 Hx'']; subst.
  rewrite (IH (c :: x) Hx'). unfold Rdiv. ring.
Qed.

Lemma linspace_0_0 n : Forall (fun v => v = 0) (np.linspace 0 0 n).
Proof.
  unfold np.linspace. apply Forall_map, Forall_forall. intros i _.
  unfold Rdiv. ring.
Qed.

Lemma baseline_cumulative_0 common params data r :
  baseline_cumulative (series (instance common params data)) 0 r = 0.
Proof.
  rewrite series_model. cbn [baseline_cumulative create_data].
  unfold m_baseline_cumulative. apply (trapz_constant_x 0), linspace_0_0.
Qed.

Lemma Rpower_base_1 p : Rpower 1 p = 1.
Proof. unfold Rpower. rewrite ln_1, Rmult_0_r. apply exp_0. Qed.

Lemma py_pow_base_1 p : py_pow 1 p = Some 1.
Proof.
  unfold py_pow. destruct (Rlt_dec 0 1) as [_ | H]; [| lra].
  now rewrite Rpower_base_1.
Qed.

Lemma py_div_Some u v w : py_div u v = Some w -> v <> 0 /\ w = u / v.
Proof.
  unfold py_div. destruct (Req_dec_T v 0) as [| Hv]; [discriminate |].
  intros [= <-]. now split.
Qed.

(** C7: with LOT_rate equal to 0, on every feasible trajectory the
    learning factor at time 0 is 1: the cumulative baseline emissions at
    time 0 are 0 for every region, cumulative emissions at time 0 are 0,
    hence both the learning-by-doing and the learning-over-time factor
    are 1 there. *)
Theorem learning_factor_at_0 common params data x :
  feasible_for common params data x ->
  in_time common params data 0 ->
  value (instance common params data) LOT_rate = Some 0 ->
  (forall r, baseline_cumulative (series (instance common params data)) 0 r
             = 0)
  /\ gv x cumulative_emissions 0 = 0
  /\ gv x LBD_factor 0 = 1
  /\ gv x LOT_factor 0 = 1
  /\ gv x learning_factor 0 = 1.
Proof.
  intros F Ht HLOT.
  assert (Hcum : gv x cumulative_emissions 0 = 0).
  { pose proof (feasible_initial_condition common params data x _ F
                  (In_init_last _ _ (or_intror (or_introl eq_refl)))) as H.
    sides H u Hl Hr. cbn [eval] in Hl, Hr.
    injection Hl as <-. injection Hr as Hr. symmetry; exact Hr. }
  assert (HLBD : gv x LBD_factor 0 = 1).
  { pose proof (feasible_global_rule common params data x _ 0 F
                  (In_last_global_rule common params _
                     (or_introl eq_refl)) Ht) as H.
    sides H u Hl Hr. cbn [eval bind LBD_factor_rule] in Hl, Hr.
    rewrite Hcum in Hr.
    rewrite py_sum_zero in Hr
      by (intros; apply baseline_cumulative_0).
    apply bind_Some in Hr. destruct Hr as (q & Hq & Hr).
    apply bind_Some in Hq. destruct Hq as (q' & Hq' & Hq).
    apply py_div_Some in Hq'. destruct Hq' as (_ & ->).
    injection Hq as <-.
    destruct (value (instance common params data) log_LBD_rate) as [p |];
      [| discriminate].
    cbn [bind] in Hr.
    replace ((0 - 0) / LBD_scaling common + 1) with 1 in Hr
      by (unfold Rdiv; ring).
    rewrite py_pow_base_1 in Hr. injection Hl as <-.
    injection Hr as Hr. symmetry; exact Hr. }
  assert (HLOT' : gv x LOT_factor 0 = 1).
  { pose proof (feasible_global_rule common params data x _ 0 F
                  (In_last_global_rule common params _
                     (or_intror (or_introl eq_refl))) Ht) as H.
    sides H u Hl Hr. cbn [eval bind LOT_factor_rule] in Hl, Hr.
    rewrite HLOT in Hr. cbn [bind] in Hr.
    replace (1 + 0) with 1 in Hr by ring.
    rewrite py_pow_base_1 in Hr. cbn [bind] in Hr.
    apply py_div_Some in Hr. destruct Hr as (_ & ->).
    injection Hl as ->. unfold Rdiv. rewrite Rinv_1. ring. }
  repeat split; try assumption.
  - intros r. apply baseline_cumulative_0.
  - pose proof (feasible_global_rule common params data x _ 0 F
                  (In_last_global_rule common params _
                     (or_intror (or_intror (or_introl eq_refl)))) Ht) as H.
    sides H u Hl Hr. cbn [eval bind learning_factor_rule] in Hl, Hr.
    injection Hl as <-. injection Hr as Hr.
    rewrite <- Hr, HLBD, HLOT'. ring.
Qed.

(** ** Full abatement *)

Lemma global_emissions_value common params data x t :
  feasible_for common params data x ->
  in_time common params data t ->
  gv x global_emissions t
  = py_sum (map (fun r => rv x regional_emissions t r)
                (regions (instance common params data))).
Proof.
  intros F Ht.
  pose proof (feasible_global_rule common params data x _ t F
                (In_first_global_rule common params _ (or_introl eq_refl))
                Ht) as H.
  sides H u Hl Hr. cbn [eval global_emissions_rule] in Hl, Hr.
  rewrite eval_esum_ER in Hr.
  injection Hl as <-. injection Hr as Hr. symmetry; exact Hr.
Qed.

Lemma cumulative_emissionsdot_value common params data x t :
  feasible_for common params data x ->
  in_time common params data t ->
  gv x cumulative_emissionsdot t = gv x global_emissions t.
Proof.
  intros F Ht.
  pose proof (feasible_global_rule common params data x _ t F
                (In_first_global_rule common params _
                   (or_intror (or_introl eq_refl))) Ht) as H.
  sides H u Hl Hr. cbn [eval cumulative_emissionsdot_rule] in Hl, Hr.
  injection Hl as <-. injection Hr as Hr. symmetry; exact Hr.
Qed.

Lemma temperature_value common params data x t :
  feasible_for common params data x ->
  in_time common params data t ->
  exists t0 tcre,
    value (instance common params data) T0 = Some t0
    /\ value (instance common params data) TCRE = Some tcre
    /\ gv x temperature t = t0 + tcre * gv x cumulative_emissions t.
Proof.
  intros F Ht.
  pose proof (feasible_global_rule common params data x _ t F
                (In_first_global_rule common params _
                   (or_intror (or_intror (or_introl eq_refl)))) Ht) as H.
  sides H u Hl Hr. cbn [eval bind temperature_rule] in Hl, Hr.
  destruct (value (instance common params data) T0) as [t0 |];
    [| discriminate].
  destruct (value (instance common params data) TCRE) as [tcre |];
    [| discriminate].
  cbn [bind] in Hr. exists t0, tcre. repeat split.
  injection Hl as <-. injection Hr as Hr. symmetry; exact Hr.
Qed.

(** A function with derivative 0 on an interval keeps its value at the
    left end. *)
Lemma constant_of_null_derivative (f f' : R -> R) (b : R) :
  (forall s, 0 <= s <= b -> derivable_pt_lim f s (f' s)) ->
  (forall s, 0 <= s <= b -> f' s = 0) ->
  forall t, 0 <= t <= b -> f t = f 0.
Proof.
  intros Hd Hz t Ht.
  assert (pr : forall s, 0 < s < b -> derivable_pt f s).
  { intros s Hs. exists (f' s). apply Hd. lra. }
  apply (null_derivative_loc f 0 b pr).
  - intros s Hs. apply derivable_continuous_pt.
    exists (f' s). now apply Hd.
  - intros s Hs. rewrite (derive_pt_eq_0 f s (f' s)).
    + apply Hz. lra.
    + apply Hd. lra.
  - exact Ht.
Qed.

(** C3: on a feasible trajectory whose relative abatement is 1 at every
    time and in every region, regional emissions are 0 everywhere,
    cumulative emissions are 0 at every time and the temperature stays
    at the value of T0. *)
Theorem full_abatement common params data x :
  feasible_for common params data x ->
  (forall t r, in_time common params data t ->
               In r (regions (instance common params data)) ->
               rv x relative_abatement t r = 1) ->
  forall t, in_time common params data t ->
    (forall r, In r (regions (instance common params data)) ->
               rv x regional_emissions t r = 0)
    /\ gv x cumulative_emissions t = 0
    /\ value (instance common params data) T0 = Some (gv x temperature t).
Proof.
  intros F Hone t Ht.
  assert (Hreg : forall s r, in_time common params data s ->
                   In r (regions (instance common params data)) ->
                   rv x regional_emissions s r = 0).
  { intros s r Hs Hr.
    rewrite (regional_emissions_value common params data x s r F Hs Hr).
    rewrite (Hone s r Hs Hr). ring. }
  assert (Hdot : forall s, in_time common params data s ->
                   gv x cumulative_emissionsdot s = 0).
  { intros s Hs.
    rewrite (cumulative_emissionsdot_value common params data x s F Hs).
    rewrite (global_emissions_value common params data x s F Hs).
    apply py_sum_zero. intros r Hr. now apply Hreg. }
  assert (Hcum : gv x cumulative_emissions t = 0).
  { pose proof Ht as Hb. apply in_time_iff in Hb.
    destruct Hb as (b & Hb & Htb).
    assert (Hin : forall s, 0 <= s <= b -> in_time common params data s).
    { intros s Hs. apply in_time_iff. now exists b. }
    rewrite (constant_of_null_derivative (gv x cumulative_emissions)
               (gv x cumulative_emissionsdot) b); [| | | exact Htb].
    - pose proof (feasible_initial_condition common params data x _ F
                    (In_init_last _ _ (or_intror (or_introl eq_refl)))) as H.
      sides H u Hl Hr. cbn [eval] in Hl, Hr.
      injection Hl as <-. injection Hr as Hr. symmetry; exact Hr.
    - intros s Hs.
      apply (feasible_DerivativeVar_t _ _ _ _ F);
        [| now apply Hin].
      apply derivatives_In; [reflexivity |].
      rewrite derivatives_model. cbn. tauto.
    - intros s Hs. now apply Hdot, Hin. }
  split; [intros r Hr; now apply Hreg |].
  split; [exact Hcum |].
  destruct (temperature_value common params data x t F Ht)
    as (t0 & tcre & H0 & _ & Htemp).
  rewrite H0, Htemp, Hcum. apply f_equal. ring.
Qed.

(** ** Counting equations *)

Lemma count_app f l1 l2 : count f (l1 ++ l2) = (count f l1 + count f l2)%nat.
Proof. unfold count. now rewrite filter_app, length_app. Qed.

Lemma count_cons f c l :
  count f (c :: l) = ((if f c then 1 else 0) + count f l)%nat.
Proof. unfold count. cbn [filter]. now destruct (f c). Qed.

Lemma count_map_false f (g : region -> crel) l :
  (forall r, f (g r) = false) -> count f (map g l) = 0%nat.
Proof.
  intros H. induction l as [| r l IH]; [reflexivity |].
  cbn [map]. rewrite count_cons, H, IH. reflexivity.
Qed.

Lemma count_map_region f (g : region -> crel) r l :
  (forall r', f (g r') = String.eqb r' r) ->
  NoDup l -> In r l -> count f (map g l) = 1%nat.
Proof.
  intros H. induction l as [| a l IH]; intros Hnd Hin; [destruct Hin |].
  cbn [map]. rewrite count_cons, H.
  inversion Hnd as [| ? ? Hnotin Hnd']; subst.
  destruct (String.eqb_spec a r) as [-> | Hne].
  - assert (Hz : count f (map g l) = 0%nat).
    { clear IH Hin Hnd. induction l as [| b l IHl]; [reflexivity |].
      cbn [map]. rewrite count_cons, H.
      destruct (String.eqb_spec b r) as [-> | _].
      - exfalso. apply Hnotin. now left.
      - inversion Hnd' as [| ? ? _ Hnd'']; subst.
        apply IHl; [| assumption].
        intros Hin. apply Hnotin. now right. }
    now rewrite Hz.
  - destruct Hin as [-> | Hin]; [contradiction |].
    now rewrite IH.
Qed.

Lemma count_flat_map_false f (g : region -> list crel) l :
  (forall r, count f (g r) = 0%nat) -> count f (flat_map g l) = 0%nat.
Proof.
  intros H. induction l as [| r l IH]; [reflexivity |].
  cbn [flat_map]. now rewrite count_app, H, IH.
Qed.

Lemma count_flat_map_region f (g : region -> list crel) r l :
  (forall r', count f (g r') = if String.eqb r' r then 1%nat else 0%nat) ->
  NoDup l -> In r l -> count f (flat_map g l) = 1%nat.
Proof.
  intros H. induction l as [| a l IH]; intros Hnd Hin; [destruct Hin |].
  cbn [flat_map]. rewrite count_app, H.
  inversion Hnd as [| ? ? Hnotin Hnd']; subst.
  destruct (String.eqb_spec a r) as [-> | Hne].
  - assert (Hz : count f (flat_map g l) = 0%nat).
    { clear IH Hin Hnd. induction l as [| b l IHl]; [reflexivity |].
      cbn [flat_map]. rewrite count_app, H.
      destruct (String.eqb_spec b r) as [-> | _].
      - exfalso. apply Hnotin. now left.
      - inversion Hnd' as [| ? ? _ Hnd'']; subst.
        apply IHl; [| assumption].
        intros Hin. apply Hnotin. now right. }
    now rewrite Hz.
  - destruct Hin as [-> | Hin]; [contradiction |].
    now rewrite IH.
Qed.

Lemma equation_of_t_carbonbudget_rule v budget m t :
  equation_of_t v (carbonbudget_rule budget m t) = false.
Proof.
  unfold carbonbudget_rule. destruct (value m year2100); [| reflexivity].
  now destruct (Rge_dec t r).
Qed.

Lemma equation_of_tr_carbonbudget_rule v r budget m t :
  equation_of_tr v r (carbonbudget_rule budget m t) = false.
Proof.
  unfold carbonbudget_rule. destruct (value m year2100); [| reflexivity].
  now destruct (Rge_dec t r0).
Qed.

(** The equations among the relations of the global rules. *)
Lemma count_equation_of_t_global common params m t d :
  count (equation_of_t d)
    (map (fun rule => rule m t) (global_rules common params))
  = match d with
    | cumulative_emissions | NPV | global_emissionsdot => 0%nat
    | _ => 1%nat
    end.
Proof.
  unfold global_rules, optional.
  destruct (emissions_carbonbudget params),
           (emissions_inertia_global params),
           (emissions_min_level params);
    cbn [map app]; rewrite !count_cons;
    rewrite ?equation_of_t_carbonbudget_rule;
    destruct d; reflexivity.
Qed.

Lemma count_equation_of_t_regional params m t d :
  count (equation_of_t d)
    (flat_map (fun rule => map (rule m t) (regions m)) (regional_rules params))
  = 0%nat.
Proof.
  unfold regional_rules, optional.
  destruct (emissions_inertia_regional params);
    cbn [flat_map app]; rewrite !count_app;
    rewrite !count_map_false by reflexivity; reflexivity.
Qed.

Lemma count_equation_of_tr_global common params m t d r :
  count (equation_of_tr d r)
    (map (fun rule => rule m t) (global_rules common params))
  = 0%nat.
Proof.
  unfold global_rules, optional.
  destruct (emissions_carbonbudget params),
           (emissions_inertia_global params),
           (emissions_min_level params);
    cbn [map app]; rewrite !count_cons;
    rewrite ?equation_of_tr_carbonbudget_rule; reflexivity.
Qed.

Lemma count_equation_of_tr_regional params m t d r :
  NoDup (regions m) -> In r (regions m) ->
  count (equation_of_tr d r)
    (flat_map (fun rule => map (rule m t) (regions m)) (regional_rules params))
  = match d with
    | relative_abatement | capital_stock | regional_emissionsdot => 0%nat
    | _ => 1%nat
    end.
Proof.
  intros Hnd Hin. unfold regional_rules, optional.
  destruct (emissions_inertia_regional params);
    cbn [flat_map app]; rewrite !count_app;
    destruct d;
    repeat first
      [ rewrite count_map_false by reflexivity
      | rewrite (count_map_region _ _ r) by
          (first [reflexivity | assumption]) ];
    reflexivity.
Qed.

Lemma count_equation_of_t_init m v :
  count (equation_of_t v) (_init m)
  = match v with
    | temperature | global_emissions | cumulative_emissions | NPV => 1%nat
    | _ => 0%nat
    end.
Proof.
  unfold _init. rewrite !count_app.
  rewrite count_flat_map_false by (intros; reflexivity).
  rewrite !count_cons. destruct v; reflexivity.
Qed.

Lemma count_equation_of_tr_init m v r :
  NoDup (regions m) -> In r (regions m) ->
  count (equation_of_tr v r) (_init m)
  = match v with
    | regional_emissions | capital_stock | carbonprice => 1%nat
    | _ => 0%nat
    end.
Proof.
  intros Hnd Hin. unfold _init. rewrite !count_app, !count_cons.
  destruct v;
    first
      [ rewrite count_flat_map_false by (intros; reflexivity); reflexivity
      | rewrite (count_flat_map_region _ _ r);
          [ reflexivity
          | intros r'; rewrite !count_cons; cbn;
            now destruct (String.eqb r' r)
          | assumption | assumption ] ].
Qed.

(** C6, as the code has it: every variable with a declared derivative
    has exactly one initial condition (one per region for a regional
    variable); the derivative variables cumulative_emissionsdot, NPVdot
    and capital_stockdot have exactly one defining equation at every
    time, while global_emissionsdot and regional_emissionsdot, which
    only the optional inertia inequalities read, have none. *)
Theorem derivative_equations_and_initial_conditions common params data :
  NoDup (map fst (params_regions params)) ->
  (forall d v,
     In (DerivativeVar_t d v) (components (abstract_model common params)) ->
     count (equation_of_t v)
       (list_relations (abstract_model common params)
          (instance common params data)) = 1%nat
     /\ forall t,
          count (equation_of_t d)
            (relations_at (abstract_model common params)
               (instance common params data) t)
          = if gvar_eqb d global_emissionsdot then 0%nat else 1%nat)
  /\ (forall d v r,
        In (DerivativeVar_tr d v)
           (components (abstract_model common params)) ->
        In r (regions (instance common params data)) ->
        count (equation_of_tr v r)
          (list_relations (abstract_model common params)
             (instance common params data)) = 1%nat
        /\ forall t,
             count (equation_of_tr d r)
               (relations_at (abstract_model common params)
                  (instance common params data) t)
             = if rvar_eqb d regional_emissionsdot then 0%nat else 1%nat).
Proof.
  intros Hnd.
  assert (Hnd' : NoDup (regions (instance common params data)))
    by now rewrite regions_model.
  split.
  - intros d v Hin.
    apply derivatives_In in Hin; [| reflexivity].
    rewrite derivatives_model in Hin.
    rewrite list_relations_model, count_equation_of_t_init.
    cbn [In] in Hin.
    repeat (destruct Hin as [Hin | Hin];
            [ try discriminate Hin; injection Hin as <- <-;
              (split; [reflexivity |]); intros t;
              rewrite relations_at_model, count_app,
                count_equation_of_t_global, count_equation_of_t_regional;
              reflexivity
            |]).
    destruct Hin.
  - intros d v r Hin Hr.
    apply derivatives_In in Hin; [| reflexivity].
    rewrite derivatives_model in Hin.
    rewrite list_relations_model,
      (count_equation_of_tr_init _ _ r Hnd' Hr).
    cbn [In] in Hin.
    repeat (destruct Hin as [Hin | Hin];
            [ try discriminate Hin; injection Hin as <- <-;
              (split; [reflexivity |]); intros t;
              rewrite relations_at_model, count_app,
                count_equation_of_tr_global,
                (count_equation_of_tr_regional _ _ _ _ r Hnd' Hr);
              reflexivity
            |]).
    destruct Hin.
Qed.

(** C6 fails as it is written: in the small scenario the declared
    derivative variable global_emissionsdot has no defining equation. *)
Lemma global_emissionsdot_without_equation :
  ~ (forall d v,
       In (DerivativeVar_t d v) (components demo_model) ->
       count (equation_of_t d) (relations_at demo_model demo_instance 0)
       = 1%nat).
Proof.
  intros H. specialize (H global_emissionsdot global_emissions).
  unfold demo_model, demo_instance in H.
  rewrite relations_at_model, count_app, count_equation_of_t_global,
    count_equation_of_t_regional in H.
  assert (Hin : In (DerivativeVar_t global_emissionsdot global_emissions)
                   (components (abstract_model demo_common demo_params))).
  { apply derivatives_In; [reflexivity |].
    rewrite derivatives_model. cbn. tauto. }
  specialize (H Hin). discriminate H.
Qed.

(** ** The savings rate *)

Lemma value_sr_no_data common params :
  value (instance common params no_data) sr = None.
Proof. rewrite value_model, parameters_model. reflexivity. Qed.

Lemma declared_parameter common params c :
  is_parameter c = true ->
  In c (parameters (abstract_model common params)) ->
  In c (components (abstract_model common params)).
Proof. intros Hc Hin. now apply parameters_In. Qed.

Lemma sr_declared_without_value common params initialize :
  In (Param_ sr initialize) (components (abstract_model common params)) ->
  initialize = None.
Proof.
  intros Hin. apply parameters_In in Hin; [| reflexivity].
  rewrite parameters_model in Hin. cbn [In] in Hin.
  repeat (destruct Hin as [Hin | Hin];
          [try discriminate Hin; injection Hin as <-; reflexivity |]).
  destruct Hin.
Qed.

Lemma rules_need_sr common (m : Instance) x t r :
  value m sr = None ->
  ~ satisfied common m x (investments_rule m t r)
  /\ ~ satisfied common m x (consumption_rule m t r).
Proof.
  intros Hsr. unfold satisfied.
  cbn [holds eval bind investments_rule consumption_rule].
  rewrite Hsr. cbn [bind]. tauto.
Qed.

(** C8 fails on the code: the parameter sr is declared without a value,
    while alpha, dk, elasmu and PRTP take theirs from the parameter
    set; the only value sr can have is one given in the instance data,
    in an instance created without data it has none, and the investment
    and consumption relations, which read it, cannot hold. *)
Theorem savings_rate_without_value common params :
  In (Param_ sr None) (components (abstract_model common params))
  /\ (forall initialize,
        In (Param_ sr initialize)
           (components (abstract_model common params)) ->
        initialize = None)
  /\ In (Param_ alpha (Some (ENum (economics_GDP_alpha params))))
        (components (abstract_model common params))
  /\ In (Param_ dk
           (Some (ENum (economics_GDP_depreciation_of_capital params))))
        (components (abstract_model common params))
  /\ In (Param_ elasmu (Some (ENum (economics_elasmu params))))
        (components (abstract_model common params))
  /\ In (Param_ PRTP (Some (ENum (economics_PRTP params))))
        (components (abstract_model common params))
  /\ (forall data, value (instance common params data) sr = data sr)
  /\ value (instance common params no_data) sr = None
  /\ forall x t r,
       ~ satisfied common (instance common params no_data) x
           (investments_rule (instance common params no_data) t r)
       /\ ~ satisfied common (instance common params no_data) x
             (consumption_rule (instance common params no_data) t r).
Proof.
  split; [| split; [| split; [| split; [| split; [| split;
    [| split; [| split]]]]]]].
  - apply declared_parameter; [reflexivity |].
    rewrite parameters_model. cbn [In]. tauto.
  - apply sr_declared_without_value.
  - apply declared_parameter; [reflexivity |].
    rewrite parameters_model. cbn [In]. tauto.
  - apply declared_parameter; [reflexivity |].
    rewrite parameters_model. cbn [In]. tauto.
  - apply declared_parameter; [reflexivity |].
    rewrite parameters_model. cbn [In]. tauto.
  - apply declared_parameter; [reflexivity |].
    rewrite parameters_model. cbn [In]. tauto.
  - intros data. apply value_sr.
  - apply value_sr_no_data.
  - intros x t r. apply rules_need_sr, value_sr_no_data.
Qed.

(** ** Parameter sets without time span or regions *)

(** C9, as the code has it: the module checks neither the time span nor
    the region set.  For every parameter set it declares tf as
    endyear - beginyear, the time set from 0 to tf and the region set
    as given, and registers the initial conditions and all its rules. *)
Theorem no_validation common params :
  In (Param_ tf (Some (ESub (EPar endyear) (EPar beginyear))))
     (components (abstract_model common params))
  /\ In (ContinuousSet_t (ENum 0) (EPar tf))
        (components (abstract_model common params))
  /\ In (Set_regions (map fst (params_regions params)))
        (components (abstract_model common params))
  /\ registered (abstract_model common params)
     = ConstraintList _init
       :: map Constraint_t (global_rules common params)
       ++ map Constraint_tr (regional_rules params)
  /\ (18 <= List.length (registered (abstract_model common params)))%nat.
Proof.
  split; [| split; [| split; [| split]]].
  - apply parameters_In; [reflexivity |].
    rewrite parameters_model. cbn [In]. tauto.
  - apply sets_In; [reflexivity |]. rewrite sets_model. cbn [In]. tauto.
  - apply sets_In; [reflexivity |]. rewrite sets_model. cbn [In]. tauto.
  - apply registered_model.
  - rewrite registered_model. unfold global_rules, regional_rules, optional.
    destruct (emissions_carbonbudget params),
             (emissions_inertia_regional params),
             (emissions_inertia_global params),
             (emissions_min_level params);
      cbn [map app List.length]; repeat constructor.
Qed.

(** C9 fails as it is written: for a parameter set with an empty time
    span and no region the module still registers its constraints. *)
Lemma configuration_error_not_detected :
  configuration_error empty_params
  /\ registered (abstract_model demo_common empty_params) <> [].
Proof.
  split.
  - left. cbn. lra.
  - rewrite registered_model. discriminate.
Qed.

(** ** The small scenario is feasible *)

Lemma interp_from_constant c x : forall xp,
  xp <> [] -> np.interp_from x xp (map (fun _ => c) xp) = c.
Proof.
  induction xp as [| x0 xp IH]; intros Hne; [contradiction |].
  destruct xp as [| x1 xp]; [reflexivity |].
  change (np.interp_from x (x0 :: x1 :: xp)
            (map (fun _ => c) (x0 :: x1 :: xp)))
    with (if Rlt_dec x x1
          then (c - c) / (x1 - x0) * (x - x0) + c
          else np.interp_from x (x1 :: xp) (map (fun _ => c) (x1 :: xp))).
  destruct (Rlt_dec x x1).
  - unfold Rdiv. ring.
  - apply IH. discriminate.
Qed.

Lemma interp_constant c x xp :
  xp <> [] -> np.interp x xp (map (fun _ => c) xp) = c.
Proof.
  intros Hne. destruct xp as [| x0 xp]; [contradiction |].
  unfold np.interp. cbn [map].
  destruct (Rle_dec x x0); [reflexivity |].
  apply (interp_from_constant c x (x0 :: xp)). discriminate.
Qed.

Lemma data_years_not_empty : data_years <> [].
Proof. unfold data_years, np.arange. cbn [seq map]. discriminate. Qed.

Lemma trapz_zero_y : forall y x,
  Forall (fun v => v = 0) y -> np.trapz y x = 0.
Proof.
  induction y as [| y0 y IH]; intros x Hy; [reflexivity |].
  destruct y as [| y1 y]; [reflexivity |].
  destruct x as [| x0 x]; [reflexivity |].
  destruct x as [| x1 x]; [reflexivity |].
  change (np.trapz (y0 :: y1 :: y) (x0 :: x1 :: x))
    with ((x1 - x0) * (y1 + y0) / 2 + np.trapz (y1 :: y) (x1 :: x)).
  inversion Hy as [| ? ? H0 Hy']; subst.
  inversion Hy' as [| ? ? H1 Hy'']; subst.
  rewrite (IH (x1 :: x) Hy'). unfold Rdiv. ring.
Qed.

Lemma demo_baseline t r : m_baseline demo_common demo_params t r = 0.
Proof.
  unfold m_baseline, get_data, data_baseline.
  apply (interp_constant 0), data_years_not_empty.
Qed.

Lemma demo_population t r : m_population demo_common demo_params t r = 1.
Proof.
  unfold m_population, get_data, data_population.
  apply (interp_constant 1), data_years_not_empty.
Qed.

Lemma demo_TFP t r : m_TFP demo_common demo_params t r = 1.
Proof.
  unfold m_TFP, get_data, data_TFP.
  apply (interp_constant 1), data_years_not_empty.
Qed.

Lemma demo_baseline_cumulative t r :
  m_baseline_cumulative demo_common demo_params t r = 0.
Proof.
  unfold m_baseline_cumulative. apply trapz_zero_y.
  apply Forall_map, Forall_forall. intros s _. apply demo_baseline.
Qed.

Lemma ln_2_neq_0 : ln 2 <> 0.
Proof.
  assert (H : ln 1 < ln 2) by (apply ln_increasing; lra).
  rewrite ln_1 in H. lra.
Qed.

Lemma demo_instance_like :
  demo_like (instance demo_common demo_params demo_data).
Proof.
  split.
  - rewrite regions_model. reflexivity.
  - intros p. rewrite value_model, parameters_model.
    cbn [construct_params demo_data eval bind demo_params time_start
         time_end economics_MAC_rho economics_MAC_beta
         economics_damages_coeff economics_GDP_alpha
         economics_GDP_depreciation_of_capital economics_elasmu
         economics_PRTP temperature_initial temperature_TCRE
         economics_MAC_gamma Quant demo_common].
    unfold set_value.
    destruct p; cbn [param_eqb bind demo_values]; try reflexivity.
    unfold py_log.
    destruct (Rlt_dec 0 1) as [_ | H]; [| lra].
    destruct (Rlt_dec 0 2) as [_ | H]; [| lra].
    cbn [bind]. unfold py_div.
    destruct (Req_dec_T (ln 2) 0) as [H | _]; [| reflexivity].
    now apply ln_2_neq_0 in H.
  - rewrite ivalue_model, parameters_model. reflexivity.
  - rewrite ivalue_model, parameters_model. reflexivity.
  - intros t r. rewrite series_model. apply demo_baseline.
  - intros t r. rewrite series_model. apply demo_population.
  - intros t r. rewrite series_model. apply demo_TFP.
  - intros t r. rewrite series_model. apply demo_baseline_cumulative.
Qed.

Lemma py_div_nonzero u v : v <> 0 -> py_div u v = Some (u / v).
Proof.
  intros Hv. unfold py_div.
  destruct (Req_dec_T v 0) as [H0 | _]; [contradiction | reflexivity].
Qed.

Lemma py_log_positive u : 0 < u -> py_log u = Some (ln u).
Proof.
  intros Hu. unfold py_log.
  destruct (Rlt_dec 0 u) as [_ | Hn]; [reflexivity | contradiction].
Qed.

Ltac demo_eval H :=
  unfold satisfied, global_emissions_rule, cumulative_emissionsdot_rule,
    temperature_rule, inertia_global_rule, inertia_regional_rule,
    min_level_rule, LBD_factor_rule, LOT_factor_rule, learning_factor_rule,
    NPVdot_rule, regional_emissions_rule, damage_costs_rule,
    abatement_costs_rule, carbonprice_rule, GDP_gross_rule, GDP_net_rule,
    investments_rule, consumption_rule, utility_rule, capital_stockdot_rule,
    esum, LBD_scaling, L;
  rewrite ?(demo_regions _ H);
  cbn [holds eval gv rv demo_trajectory py_sum map fold_left Quant
       demo_common];
  rewrite ?(demo_value _ H), ?(demo_init_capitalstock _ H),
    ?(demo_damage_factor _ H), ?(demo_series_baseline _ H),
    ?(demo_series_population _ H), ?(demo_series_TFP _ H),
    ?(demo_series_baseline_cumulative _ H);
  cbn [demo_values bind damage_fct AC MAC calc_GDP demo_common].

Lemma demo_like_init m :
  demo_like m -> Forall (satisfied demo_common m demo_trajectory) (_init m).
Proof.
  intros H.
  unfold _init. rewrite (demo_regions _ H). cbn [flat_map app].
  repeat (apply Forall_cons; [demo_eval H; try reflexivity; try lra |]).
  apply Forall_nil.
Qed.

Lemma demo_like_relations m t :
  demo_like m ->
  Forall (satisfied demo_common m demo_trajectory)
    (map (fun rule => rule m t) (global_rules demo_common demo_params)
     ++ flat_map (fun rule => map (rule m t) (regions m))
          (regional_rules demo_params)).
Proof.
  intros H. rewrite (demo_regions _ H).
  unfold global_rules, regional_rules, optional.
  cbn [demo_params emissions_carbonbudget emissions_inertia_regional
       emissions_inertia_global emissions_min_level map flat_map app].
  repeat (apply Forall_cons; [|]); [.. | apply Forall_nil].
  all: try (demo_eval H; try reflexivity; try lra).
  - (* carbon budget *)
    unfold satisfied, carbonbudget_rule. rewrite (demo_value _ H).
    cbn [demo_values]. destruct (Rge_dec t (2100 - 2020)).
    + demo_eval H. lra.
    + exact I.
  - (* learning by doing *)
    rewrite py_div_nonzero by lra. cbn [bind].
    replace ((0 + 0 - 0) / 1 + 1) with 1 by (unfold Rdiv; rewrite Rinv_1; ring).
    rewrite py_pow_base_1. reflexivity.
  - (* learning over time *)
    replace (1 + 0) with 1 by ring. rewrite py_pow_base_1. cbn [bind].
    rewrite py_div_nonzero by lra. unfold Rdiv. rewrite Rinv_1. ring.
  - (* utility *)
    rewrite py_div_nonzero by lra. cbn [bind].
    replace (1 / 1) with 1 by (unfold Rdiv; rewrite Rinv_1; ring).
    rewrite py_pow_base_1. cbn [bind].
    rewrite py_div_nonzero by lra. unfold Rdiv. ring.
  - (* capital stock *)
    rewrite py_log_positive by lra. cbn [bind].
    replace (1 - 0) with 1 by ring. rewrite ln_1. ring.
Qed.

Lemma demo_in_time t :
  0 <= t <= 2100 - 2020 -> in_time demo_common demo_params demo_data t.
Proof.
  intros Ht. apply in_time_iff. exists (2100 - 2020). split; [| exact Ht].
  exact (demo_value _ demo_instance_like tf).
Qed.

Lemma demo_regions_WORLD :
  In "WORLD"%string (regions (instance demo_common demo_params demo_data)).
Proof. rewrite (demo_regions _ demo_instance_like). now left. Qed.

Lemma demo_feasible :
  feasible_for demo_common demo_params demo_data demo_trajectory.
Proof.
  unfold feasible_for. split.
  - intros v ini lo hi Hin t _.
    apply variables_In in Hin; [| reflexivity].
    rewrite variables_model in Hin. cbn [In] in Hin.
    repeat (destruct Hin as [Hin | Hin]; [discriminate Hin |]).
    destruct Hin.
  - intros v ini lo hi Hin t r _ _.
    apply variables_In in Hin; [| reflexivity].
    rewrite variables_model in Hin. cbn [In] in Hin.
    repeat (destruct Hin as [Hin | Hin];
            [try discriminate Hin;
             injection Hin as <- _ <- <-; cbn [rv demo_trajectory]; lra |]).
    destruct Hin.
  - intros d v Hin t _.
    apply derivatives_In in Hin; [| reflexivity].
    rewrite derivatives_model in Hin. cbn [In] in Hin.
    repeat (destruct Hin as [Hin | Hin];
            [try discriminate Hin; injection Hin as <- <-;
             apply (derivable_pt_lim_const 0) |]).
    destruct Hin.
  - intros d v Hin t r _ _.
    apply derivatives_In in Hin; [| reflexivity].
    rewrite derivatives_model in Hin. cbn [In] in Hin.
    repeat (destruct Hin as [Hin | Hin];
            [try discriminate Hin; injection Hin as <- <- |]);
      [ apply (derivable_pt_lim_const 1)
      | apply (derivable_pt_lim_const 0)
      | destruct Hin ].
  - rewrite list_relations_model.
    apply demo_like_init, demo_instance_like.
  - intros t _. rewrite relations_at_model.
    apply demo_like_relations, demo_instance_like.
Qed.

(** ** The theorems in the small scenario *)

Lemma demo_in_time_0 : in_time demo_common demo_params demo_data 0.
Proof. apply demo_in_time. lra. Qed.

Lemma demo_abatement_is_1 t r :
  in_time demo_common demo_params demo_data t ->
  In r (regions (instance demo_common demo_params demo_data)) ->
  rv demo_trajectory relative_abatement t r = 1.
Proof. reflexivity. Qed.

Lemma demo_year2100 :
  value (instance demo_common demo_params demo_data) year2100
  = Some (2100 - 2020).
Proof. exact (demo_value _ demo_instance_like year2100). Qed.

Lemma demo_LOT_rate :
  value (instance demo_common demo_params demo_data) LOT_rate = Some 0.
Proof. exact (demo_value _ demo_instance_like LOT_rate). Qed.

Lemma demo_NoDup : NoDup (map fst (params_regions demo_params)).
Proof. cbn. constructor; [intros [] | constructor]. Qed.

(** The emission identity at time 0 in the region WORLD. *)
Lemma regional_emissions_identity_witness :
  feasible_for demo_common demo_params demo_data demo_trajectory
  /\ in_time demo_common demo_params demo_data 0
  /\ In "WORLD"%string (regions (instance demo_common demo_params demo_data))
  /\ (In (Constraint_tr regional_emissions_rule)
         (components (abstract_model demo_common demo_params))
      /\ rv demo_trajectory regional_emissions 0 "WORLD"%string
         = (1 - rv demo_trajectory relative_abatement 0 "WORLD"%string)
           * baseline (series (instance demo_common demo_params demo_data))
               0 "WORLD"%string).
Proof.
  split; [exact demo_feasible |].
  split; [exact demo_in_time_0 |].
  split; [exact demo_regions_WORLD |].
  exact (regional_emissions_identity demo_common demo_params demo_data
           demo_trajectory 0 "WORLD"%string demo_feasible demo_in_time_0
           demo_regions_WORLD).
Defined.

(** The carbon budget of the small scenario at the end of its time set,
    and the model without budget of the parameter set without regions. *)
Lemma carbon_budget_witness :
  emissions_carbonbudget demo_params = Some "1000 GtCO2"%string
  /\ feasible_for demo_common demo_params demo_data demo_trajectory
  /\ in_time demo_common demo_params demo_data (2100 - 2020)
  /\ value (instance demo_common demo_params demo_data) year2100
     = Some (2100 - 2020)
  /\ 2100 - 2020 >= 2100 - 2020
  /\ gv demo_trajectory cumulative_emissions (2100 - 2020)
     <= Quant demo_common "1000 GtCO2" "emissions_unit"
  /\ 0 < 2100 - 2020
  /\ carbonbudget_rule (Quant demo_common "1000 GtCO2" "emissions_unit")
       (instance demo_common demo_params demo_data) 0 = CSkip
  /\ emissions_carbonbudget empty_params = None
  /\ forall t c,
       In c (relations_at (abstract_model demo_common empty_params)
               (instance demo_common empty_params no_data) t) ->
       inequality_on cumulative_emissions c = false.
Proof.
  assert (Hend : in_time demo_common demo_params demo_data (2100 - 2020))
    by (apply demo_in_time; lra).
  assert (Hge : 2100 - 2020 >= 2100 - 2020) by lra.
  assert (Hlt : 0 < 2100 - 2020) by lra.
  split; [reflexivity |].
  split; [exact demo_feasible |].
  split; [exact Hend |].
  split; [exact demo_year2100 |].
  split; [exact Hge |].
  split.
  { exact (proj1 (carbon_budget demo_common demo_params demo_data)
             "1000 GtCO2"%string demo_trajectory (2100 - 2020) (2100 - 2020)
             eq_refl demo_feasible Hend demo_year2100 Hge). }
  split; [exact Hlt |].
  split.
  { exact (proj1 (proj1 (proj2 (carbon_budget demo_common demo_params
                                  demo_data))
                    "1000 GtCO2"%string 0 (2100 - 2020)
                    eq_refl demo_year2100 Hlt)). }
  split; [reflexivity |].
  exact (proj2 (proj2 (proj2 (proj2 (carbon_budget demo_common empty_params
                                       no_data)) eq_refl))).
Defined.

(** Full abatement in the small scenario, in the middle of its time
    set. *)
Lemma full_abatement_witness :
  feasible_for demo_common demo_params demo_data demo_trajectory
  /\ (forall t r,
        in_time demo_common demo_params demo_data t ->
        In r (regions (instance demo_common demo_params demo_data)) ->
        rv demo_trajectory relative_abatement t r = 1)
  /\ in_time demo_common demo_params demo_data 40
  /\ ((forall r,
         In r (regions (instance demo_common demo_params demo_data)) ->
         rv demo_trajectory regional_emissions 40 r = 0)
      /\ gv demo_trajectory cumulative_emissions 40 = 0
      /\ value (instance demo_common demo_params demo_data) T0
         = Some (gv demo_trajectory temperature 40)).
Proof.
  assert (Ht : in_time demo_common demo_params demo_data 40)
    by (apply demo_in_time; lra).
  split; [exact demo_feasible |].
  split; [exact demo_abatement_is_1 |].
  split; [exact Ht |].
  exact (full_abatement demo_common demo_params demo_data demo_trajectory
           demo_feasible demo_abatement_is_1 40 Ht).
Defined.

(** The initial conditions of the small scenario. *)
Lemma values_at_time_0_witness :
  feasible_for demo_common demo_params demo_data demo_trajectory
  /\ (value (instance demo_common demo_params demo_data) T0
      = Some (gv demo_trajectory temperature 0)
      /\ gv demo_trajectory cumulative_emissions 0 = 0
      /\ gv demo_trajectory NPV 0 = 0
      /\ forall r,
           In r (regions (instance demo_common demo_params demo_data)) ->
           ivalue (instance demo_common demo_params demo_data)
             init_capitalstock r
           = Some (rv demo_trajectory capital_stock 0 r)).
Proof.
  split; [exact demo_feasible |].
  exact (values_at_time_0 demo_common demo_params demo_data
           demo_trajectory demo_feasible).
Defined.

(** The NPV equation and the objective of the small scenario. *)
Lemma NPV_equation_and_objective_witness :
  feasible_for demo_common demo_params demo_data demo_trajectory
  /\ in_time demo_common demo_params demo_data 0
  /\ exists t_end,
       value (instance demo_common demo_params demo_data) tf = Some t_end
       /\ obj_rule (instance demo_common demo_params demo_data)
          = Some (EG NPV t_end).
Proof.
  split; [exact demo_feasible |].
  split; [exact demo_in_time_0 |].
  exact (proj2 (proj2 (proj2 (proj2
           (NPV_equation_and_objective demo_common demo_params demo_data
              demo_trajectory 0 demo_feasible demo_in_time_0))))).
Defined.

(** The counts of the small scenario, whose region names are distinct. *)
Lemma derivative_equations_and_initial_conditions_witness :
  NoDup (map fst (params_regions demo_params))
  /\ (count (equation_of_t cumulative_emissions)
        (list_relations (abstract_model demo_common demo_params)
           (instance demo_common demo_params demo_data)) = 1%nat
      /\ forall t,
           count (equation_of_t cumulative_emissionsdot)
             (relations_at (abstract_model demo_common demo_params)
                (instance demo_common demo_params demo_data) t) = 1%nat).
Proof.
  split; [exact demo_NoDup |].
  assert (Hin : In (DerivativeVar_t cumulative_emissionsdot
                      cumulative_emissions)
                   (components (abstract_model demo_common demo_params))).
  { apply derivatives_In; [reflexivity |].
    rewrite derivatives_model. now left. }
  exact (proj1 (derivative_equations_and_initial_conditions demo_common
                  demo_params demo_data demo_NoDup)
           cumulative_emissionsdot cumulative_emissions Hin).
Defined.

(** The learning factor of the small scenario at time 0. *)
Lemma learning_factor_at_0_witness :
  feasible_for demo_common demo_params demo_data demo_trajectory
  /\ in_time demo_common demo_params demo_data 0
  /\ value (instance demo_common demo_params demo_data) LOT_rate = Some 0
  /\ gv demo_trajectory learning_factor 0 = 1.
Proof.
  split; [exact demo_feasible |].
  split; [exact demo_in_time_0 |].
  split; [exact demo_LOT_rate |].
  exact (proj2 (proj2 (proj2 (proj2
           (learning_factor_at_0 demo_common demo_params demo_data
              demo_trajectory demo_feasible demo_in_time_0
              demo_LOT_rate))))).
Defined.

(** The carbon price of the small scenario at time 0. *)
Lemma carbonprice_constrained_twice_witness :
  feasible_for demo_common demo_params demo_data demo_trajectory
  /\ in_time demo_common demo_params demo_data 0
  /\ In "WORLD"%string (regions (instance demo_common demo_params demo_data))
  /\ exists gamma beta,
       value (instance demo_common demo_params demo_data) MAC_gamma
       = Some gamma
       /\ value (instance demo_common demo_params demo_data) MAC_beta
          = Some beta
       /\ MAC demo_common (rv demo_trajectory relative_abatement 0 "WORLD"%string)
            (gv demo_trajectory learning_factor 0) gamma beta = 0.
Proof.
  split; [exact demo_feasible |].
  split; [exact demo_in_time_0 |].
  split; [exact demo_regions_WORLD |].
  exact (proj2 (proj2
           (carbonprice_constrained_twice demo_common demo_params demo_data
              demo_trajectory "WORLD"%string demo_feasible demo_in_time_0
              demo_regions_WORLD))).
Defined.

(** * Further properties of the module *)

(** ** Emissions and temperature *)

Lemma py_sum_ext (f g : region -> R) l :
  (forall r, In r l -> f r = g r) -> py_sum (map f l) = py_sum (map g l).
Proof. intros H. now rewrite (map_ext_in f g l H). Qed.

Lemma global_emissions_abatement common params data x t :
  feasible_for common params data x ->
  in_time common params data t ->
  gv x global_emissions t
  = py_sum (map (fun r => (1 - rv x relative_abatement t r)
                          * baseline (series (instance common params data))
                              t r)
                (regions (instance common params data))).
Proof.
  intros F Ht. rewrite (global_emissions_value common params data x t F Ht).
  apply py_sum_ext. intros r Hr. now apply regional_emissions_value.
Qed.

(** X1: on every feasible trajectory global emissions are, at every
    time, the sum of the regional emissions, that is the sum over the
    regions of (1 - relative abatement) times the baseline. *)
Theorem global_emissions_sum common params data x t :
  feasible_for common params data x ->
  in_time common params data t ->
  gv x global_emissions t
  = py_sum (map (fun r => rv x regional_emissions t r)
                (regions (instance common params data)))
  /\ gv x global_emissions t
     = py_sum (map (fun r => (1 - rv x relative_abatement t r)
                             * baseline (series (instance common params data))
                                 t r)
                   (regions (instance common params data))).
Proof.
  intros F Ht. split.
  - now apply global_emissions_value.
  - now apply global_emissions_abatement.
Qed.

Lemma DerivativeVar_cumulative_emissions common params :
  In (DerivativeVar_t cumulative_emissionsdot cumulative_emissions)
     (components (abstract_model common params)).
Proof.
  apply derivatives_In; [reflexivity |].
  rewrite derivatives_model. now left.
Qed.

(** X2: on every feasible trajectory cumulative emissions have, at
    every time, the global emissions as their time derivative: the sum
    over the regions of (1 - relative abatement) times the baseline. *)
Theorem cumulative_emissions_derivative common params data x t :
  feasible_for common params data x ->
  in_time common params data t ->
  derivable_pt_lim (gv x cumulative_emissions) t
    (py_sum (map (fun r => (1 - rv x relative_abatement t r)
                           * baseline (series (instance common params data))
                               t r)
                 (regions (instance common params data)))).
Proof.
  intros F Ht.
  rewrite <- (global_emissions_abatement common params data x t F Ht).
  rewrite <- (cumulative_emissionsdot_value common params data x t F Ht).
  exact (feasible_DerivativeVar_t _ _ _ _ F _ _
           (DerivativeVar_cumulative_emissions common params) t Ht).
Qed.

Lemma cumulative_emissions_under_budget common params data x t
      carbonbudget y2100 :
  emissions_carbonbudget params = Some carbonbudget ->
  feasible_for common params data x ->
  in_time common params data t ->
  value (instance common params data) year2100 = Some y2100 ->
  t >= y2100 ->
  gv x cumulative_emissions t <= Quant common carbonbudget "emissions_unit".
Proof.
  intros HB F Ht Hy Hge.
  pose proof (feasible_global_rule common params data x _ t F
                (In_carbonbudget_rule common params carbonbudget HB) Ht)
    as H.
  unfold carbonbudget_rule in H. rewrite Hy in H.
  destruct (Rge_dec t y2100) as [_ | Hn]; [| contradiction].
  apply satisfied_CLe in H. destruct H as (u & w & Hu & Hw & Hle).
  unfold value_in in Hu, Hw. cbn [eval bind] in Hu, Hw.
  injection Hu as <-. injection Hw as <-. lra.
Qed.

(** X3: on every feasible trajectory the temperature is the value of T0
    plus the value of TCRE times the cumulative emissions; with a carbon
    budget and a nonnegative TCRE the temperature is therefore at most
    T0 + TCRE * budget at every time from year2100 on. *)
Theorem temperature_response common params data x t t0 tcre :
  feasible_for common params data x ->
  in_time common params data t ->
  value (instance common params data) T0 = Some t0 ->
  value (instance common params data) TCRE = Some tcre ->
  gv x temperature t = t0 + tcre * gv x cumulative_emissions t
  /\ forall carbonbudget y2100,
       emissions_carbonbudget params = Some carbonbudget ->
       value (instance common params data) year2100 = Some y2100 ->
       t >= y2100 -> 0 <= tcre ->
       gv x temperature t
       <= t0 + tcre * Quant common carbonbudget "emissions_unit".
Proof.
  intros F Ht H0 HT.
  destruct (temperature_value common params data x t F Ht)
    as (t0' & tcre' & H0' & HT' & Htemp).
  rewrite H0 in H0'. injection H0' as <-.
  rewrite HT in HT'. injection HT' as <-.
  split; [exact Htemp |].
  intros carbonbudget y2100 HB Hy Hge Hpos. rewrite Htemp.
  pose proof (cumulative_emissions_under_budget common params data x t
                carbonbudget y2100 HB F Ht Hy Hge) as Hle.
  apply Rplus_le_compat_l. now apply Rmult_le_compat_l.
Qed.

Lemma Var_relative_abatement common params :
  In (Var_tr relative_abatement (Some (fun _ _ _ => Some (ENum 0)))
        (Some (0, 2)))
     (components (abstract_model common params)).
Proof.
  apply variables_In; [reflexivity |].
  rewrite variables_model. cbn [In]. tauto.
Qed.

(** X4: the bounds 0 and 2 of the relative abatement keep the regional
    emissions of a feasible trajectory between minus and plus the
    baseline in absolute value; they are not positive where the
    abatement is at least 1 and the baseline is not negative. *)
Theorem regional_emissions_bounds common params data x t r :
  feasible_for common params data x ->
  in_time common params data t ->
  In r (regions (instance common params data)) ->
  Rabs (rv x regional_emissions t r)
  <= Rabs (baseline (series (instance common params data)) t r)
  /\ (1 <= rv x relative_abatement t r ->
      0 <= baseline (series (instance common params data)) t r ->
      rv x regional_emissions t r <= 0).
Proof.
  intros F Ht Hr.
  pose proof (feasible_bounds_tr _ _ _ _ F _ _ _ _
                (Var_relative_abatement common params) t r Ht Hr) as Hb.
  rewrite (regional_emissions_value common params data x t r F Ht Hr).
  split.
  - rewrite Rabs_mult.
    rewrite <- (Rmult_1_l (Rabs (baseline _ t r))) at 2.
    apply Rmult_le_compat_r; [apply Rabs_pos |].
    apply Rabs_le. lra.
  - intros Ha Hbase.
    assert (Hle : 1 - rv x relative_abatement t r <= 0) by lra.
    nra.
Qed.

(** X5: when the end year is before 2100 and the instance data leave
    the time parameters alone, the carbon budget rule is skipped at
    every time of the time set: even a configured budget registers no
    inequality on cumulative emissions there. *)
Theorem budget_beyond_end_year common params data budget t :
  data beginyear = None -> data endyear = None ->
  data tf = None -> data year2100 = None ->
  time_end params < 2100 ->
  in_time common params data t ->
  carbonbudget_rule budget (instance common params data) t = CSkip
  /\ forall c,
       In c (relations_at (abstract_model common params)
               (instance common params data) t) ->
       inequality_on cumulative_emissions c = false.
Proof.
  intros Hb He Htf Hy Hend Ht.
  apply in_time_iff in Ht. destruct Ht as (b & Hval & Hrange).
  rewrite (value_tf common params data Hb He Htf) in Hval.
  injection Hval as <-.
  assert (Hskip : forall budget',
            carbonbudget_rule budget' (instance common params data) t
            = CSkip).
  { intros budget'. unfold carbonbudget_rule.
    rewrite (value_year2100 common params data Hb Hy).
    destruct (Rge_dec t (2100 - time_start params)) as [Hge | _];
      [lra | reflexivity]. }
  split; [apply Hskip |].
  intros c Hin.
  destruct (inequality_on cumulative_emissions c) eqn:Hc; [| reflexivity].
  destruct (inequality_on_cumulative_emissions _ _ _ _ _ Hin Hc)
    as (carbonbudget & _ & ->).
  rewrite Hskip in Hc. discriminate Hc.
Qed.

(** ** The emission floor and the inertia limits *)

Lemma In_min_level_rule common params min_level :
  emissions_min_level params = Some min_level ->
  In (min_level_rule common min_level) (global_rules common params).
Proof.
  intros H. unfold global_rules. rewrite H.
  do 3 (apply in_or_app; right). apply in_or_app; left. now left.
Qed.

Lemma In_inertia_global_rule common params inertia_global :
  emissions_inertia_global params = Some inertia_global ->
  In (inertia_global_rule inertia_global) (global_rules common params).
Proof.
  intros H. unfold global_rules. rewrite H.
  do 2 (apply in_or_app; right). apply in_or_app; left. now left.
Qed.

Lemma In_inertia_regional_rule params inertia_regional :
  emissions_inertia_regional params = Some inertia_regional ->
  In (inertia_regional_rule inertia_regional) (regional_rules params).
Proof.
  intros H. unfold regional_rules. rewrite H.
  apply in_or_app; right. apply in_or_app; left. now left.
Qed.

Lemma satisfied_CGe common m x a b :
  satisfied common m x (CGe a b) ->
  exists u w, value_in common m x a = Some u
              /\ value_in common m x b = Some w /\ u >= w.
Proof.
  unfold satisfied, value_in; cbn [holds].
  destruct (eval common (value m) (ivalue m) x a) as [u |]; [| tauto].
  destruct (eval common (value m) (ivalue m) x b) as [w |]; [| tauto].
  eauto.
Qed.

Lemma global_emissions_above_floor common params data x t min_level :
  emissions_min_level params = Some min_level ->
  feasible_for common params data x ->
  in_time common params data t ->
  gv x global_emissions t >= Quant common min_level "emissionsrate_unit".
Proof.
  intros HM F Ht.
  pose proof (feasible_global_rule common params data x _ t F
                (In_min_level_rule common params min_level HM) Ht) as H.
  apply satisfied_CGe in H. destruct H as (u & w & Hu & Hw & Hge).
  unfold value_in in Hu, Hw. cbn [eval min_level_rule] in Hu, Hw.
  injection Hu as <-. injection Hw as <-. exact Hge.
Qed.

(** Among the relations registered at a time, an inequality in which
    global emissions occur can only come from the emission floor. *)
Lemma inequality_on_global_emissions common params m t c :
  In c (relations_at (abstract_model common params) m t) ->
  inequality_on global_emissions c = true ->
  exists min_level,
    emissions_min_level params = Some min_level
    /\ c = min_level_rule common min_level m t.
Proof.
  rewrite relations_at_model. intros Hin Hc.
  apply in_app_or in Hin. destruct Hin as [Hin | Hin].
  - unfold global_rules, optional in Hin.
    destruct (emissions_carbonbudget params);
      destruct (emissions_inertia_global params);
      destruct (emissions_min_level params) as [min_level |];
      cbn [map app In] in Hin;
      repeat (destruct Hin as [Hin | Hin];
              [ try (exists min_level; split;
                       [reflexivity | symmetry; exact Hin]);
                subst c;
                try (unfold carbonbudget_rule in Hc;
                     destruct (value m year2100);
                     [destruct (Rge_dec t _) |]);
                discriminate Hc
              | ]);
      destruct Hin.
  - apply in_flat_map in Hin. destruct Hin as (rule & Hrule & Hin).
    apply in_map_iff in Hin. destruct Hin as (r & <- & _).
    unfold regional_rules, optional in Hrule.
    destruct (emissions_inertia_regional params);
      cbn [app In] in Hrule;
      repeat (destruct Hrule as [Hrule | Hrule];
              [subst rule; discriminate Hc |]);
      destruct Hrule.
Qed.

(** X6: with an emission floor, global emissions of a feasible
    trajectory are at least the floor at every time; without one no
    inequality on global emissions is registered at any time. *)
Theorem emission_floor common params data :
  (forall min_level x t,
     emissions_min_level params = Some min_level ->
     feasible_for common params data x ->
     in_time common params data t ->
     gv x global_emissions t >= Quant common min_level "emissionsrate_unit")
  /\ (emissions_min_level params = None ->
      forall t c,
        In c (relations_at (abstract_model common params)
                (instance common params data) t) ->
        inequality_on global_emissions c = false).
Proof.
  split.
  - intros min_level x t HM F Ht.
    now apply (global_emissions_above_floor common params data x t min_level).
  - intros HM t c Hin.
    destruct (inequality_on global_emissions c) eqn:Hc; [| reflexivity].
    destruct (inequality_on_global_emissions _ _ _ _ _ Hin Hc)
      as (min_level & HM' & _).
    rewrite HM in HM'. discriminate HM'.
Qed.

(** A function whose derivative is at least [k] on an interval grows at
    least at the rate [k] over it. *)
Lemma growth_of_bounded_derivative (f f' : R -> R) (a b k : R) :
  a <= b ->
  (forall s, a <= s <= b -> derivable_pt_lim f s (f' s)) ->
  (forall s, a <= s <= b -> f' s >= k) ->
  f b - f a >= k * (b - a).
Proof.
  intros Hab Hd Hk.
  destruct (Rle_lt_or_eq_dec a b Hab) as [Hlt | ->].
  - destruct (MVT_cor2 f f' a b Hlt Hd) as (c & Heq & Hc).
    rewrite Heq. apply Rle_ge. apply Rmult_le_compat_r; [lra |].
    apply Rge_le, Hk. lra.
  - lra.
Qed.

Lemma in_time_between common params data t1 t2 s :
  in_time common params data t1 -> in_time common params data t2 ->
  t1 <= s <= t2 -> in_time common params data s.
Proof.
  intros H1 H2 Hs.
  apply in_time_iff in H1. destruct H1 as (b & Hb & H1).
  apply in_time_iff in H2. destruct H2 as (b' & Hb' & H2).
  rewrite Hb in Hb'. injection Hb' as <-.
  apply in_time_iff. exists b. split; [exact Hb | lra].
Qed.

Lemma cumulative_emissions_at_0 common params data x :
  feasible_for common params data x -> gv x cumulative_emissions 0 = 0.
Proof.
  intros F.
  pose proof (feasible_initial_condition common params data x _ F
                (In_init_last _ _ (or_intror (or_introl eq_refl)))) as H.
  sides H u Hl Hr. cbn [eval] in Hl, Hr.
  injection Hl as <-. injection Hr as Hr. symmetry; exact Hr.
Qed.

(** X7: with an emission floor and a carbon budget, the cumulative
    emissions of a feasible trajectory at year2100 are at least the
    floor times year2100; so when the floor times year2100 exceeds the
    budget and year2100 lies in the time set, no trajectory is
    feasible. *)
Theorem floor_against_budget common params data x min_level carbonbudget
        y2100 :
  emissions_min_level params = Some min_level ->
  emissions_carbonbudget params = Some carbonbudget ->
  value (instance common params data) year2100 = Some y2100 ->
  in_time common params data y2100 ->
  Quant common min_level "emissionsrate_unit" * y2100
  > Quant common carbonbudget "emissions_unit" ->
  ~ feasible_for common params data x.
Proof.
  intros HM HB Hy Ht Hgt F.
  assert (H0 : in_time common params data 0).
  { apply in_time_iff in Ht. destruct Ht as (b & Hb & Ht).
    apply in_time_iff. exists b. split; [exact Hb | lra]. }
  assert (Hpos : 0 <= y2100).
  { apply in_time_iff in Ht. destruct Ht as (b & _ & Ht). lra. }
  pose proof (growth_of_bounded_derivative (gv x cumulative_emissions)
                (gv x cumulative_emissionsdot) 0 y2100
                (Quant common min_level "emissionsrate_unit") Hpos) as Hg.
  assert (Hle := cumulative_emissions_under_budget common params data x
                   y2100 carbonbudget y2100 HB F Ht Hy (Rge_refl _)).
  rewrite (cumulative_emissions_at_0 common params data x F) in Hg.
  assert (Hgrow : gv x cumulative_emissions y2100 - 0
                  >= Quant common min_level "emissionsrate_unit"
                     * (y2100 - 0)).
  { apply Hg.
    - intros s Hs.
      apply (feasible_DerivativeVar_t _ _ _ _ F _ _
               (DerivativeVar_cumulative_emissions common params)).
      now apply (in_time_between common params data 0 y2100).
    - intros s Hs.
      assert (Hsin : in_time common params data s)
        by now apply (in_time_between common params data 0 y2100).
      rewrite (cumulative_emissionsdot_value common params data x s F Hsin).
      now apply (global_emissions_above_floor common params data x s
                   min_level). }
  lra.
Qed.

Lemma DerivativeVar_regional_emissions common params :
  In (DerivativeVar_tr regional_emissionsdot regional_emissions)
     (components (abstract_model common params)).
Proof.
  apply derivatives_In; [reflexivity |].
  rewrite derivatives_model. cbn [In]. tauto.
Qed.

Lemma DerivativeVar_global_emissions common params :
  In (DerivativeVar_t global_emissionsdot global_emissions)
     (components (abstract_model common params)).
Proof.
  apply derivatives_In; [reflexivity |].
  rewrite derivatives_model. cbn [In]. tauto.
Qed.

(** X8: with a regional inertia limit, the emissions of a region on a
    feasible trajectory change between two times of the time set by at
    least the limit times the baseline of the region at time 0 times the
    elapsed time. *)
Theorem regional_inertia common params data x inertia_regional t1 t2 r :
  emissions_inertia_regional params = Some inertia_regional ->
  feasible_for common params data x ->
  in_time common params data t1 ->
  in_time common params data t2 ->
  t1 <= t2 ->
  In r (regions (instance common params data)) ->
  rv x regional_emissions t2 r - rv x regional_emissions t1 r
  >= inertia_regional
     * baseline (series (instance common params data)) 0 r * (t2 - t1).
Proof.
  intros HI F H1 H2 Hle Hr.
  apply (growth_of_bounded_derivative
           (fun s => rv x regional_emissions s r)
           (fun s => rv x regional_emissionsdot s r) t1 t2 _ Hle).
  - intros s Hs.
    apply (feasible_DerivativeVar_tr _ _ _ _ F _ _
             (DerivativeVar_regional_emissions common params));
      [| exact Hr].
    now apply (in_time_between common params data t1 t2).
  - intros s Hs.
    assert (Hsin : in_time common params data s)
      by now apply (in_time_between common params data t1 t2).
    pose proof (feasible_regional_rule common params data x _ s r F
                  (In_inertia_regional_rule params inertia_regional HI)
                  Hsin Hr) as H.
    apply satisfied_CGe in H. destruct H as (u & w & Hu & Hw & Hge).
    unfold value_in in Hu, Hw. cbn [eval inertia_regional_rule] in Hu, Hw.
    injection Hu as <-. injection Hw as <-. exact Hge.
Qed.

(** X9: with a global inertia limit, global emissions on a feasible
    trajectory change between two times of the time set by at least the
    limit times the summed baselines at time 0 times the elapsed time. *)
Theorem global_inertia common params data x inertia_global t1 t2 :
  emissions_inertia_global params = Some inertia_global ->
  feasible_for common params data x ->
  in_time common params data t1 ->
  in_time common params data t2 ->
  t1 <= t2 ->
  gv x global_emissions t2 - gv x global_emissions t1
  >= inertia_global
     * py_sum (map (fun r =>
                      baseline (series (instance common params data)) 0 r)
                   (regions (instance common params data)))
     * (t2 - t1).
Proof.
  intros HI F H1 H2 Hle.
  apply (growth_of_bounded_derivative (gv x global_emissions)
           (gv x global_emissionsdot) t1 t2 _ Hle).
  - intros s Hs.
    apply (feasible_DerivativeVar_t _ _ _ _ F _ _
             (DerivativeVar_global_emissions common params)).
    now apply (in_time_between common params data t1 t2).
  - intros s Hs.
    assert (Hsin : in_time common params data s)
      by now apply (in_time_between common params data t1 t2).
    pose proof (feasible_global_rule common params data x _ s F
                  (In_inertia_global_rule common params inertia_global HI)
                  Hsin) as H.
    apply satisfied_CGe in H. destruct H as (u & w & Hu & Hw & Hge).
    unfold value_in in Hu, Hw. cbn [eval inertia_global_rule] in Hu, Hw.
    injection Hu as <-. injection Hw as <-. exact Hge.
Qed.

(** ** Learning *)

Lemma py_pow_exponent_0 u w : py_pow u 0 = Some w -> w = 1.
Proof.
  unfold py_pow.
  destruct (Rlt_dec 0 u) as [Hu | _].
  - intros [= <-]. unfold Rpower. rewrite Rmult_0_l. apply exp_0.
  - destruct (Req_dec_T u 0) as [_ | _].
    + destruct (Rlt_dec 0 0) as [H0 | _]; [lra |].
      destruct (Req_dec_T 0 0) as [_ | H0]; [| contradiction].
      now intros [= <-].
    + destruct (Req_dec_T (IZR (Int_part 0)) 0) as [Hz | _];
        [| discriminate].
      intros [= <-]. apply eq_IZR in Hz. rewrite Hz. reflexivity.
Qed.

Lemma LOT_factor_value common params data x t :
  feasible_for common params data x ->
  in_time common params data t ->
  value (instance common params data) LOT_rate = Some 0 ->
  gv x LOT_factor t = 1.
Proof.
  intros F Ht HLOT.
  pose proof (feasible_global_rule common params data x _ t F
                (In_last_global_rule common params _
                   (or_intror (or_introl eq_refl))) Ht) as H.
  sides H u Hl Hr. cbn [eval bind LOT_factor_rule] in Hl, Hr.
  rewrite HLOT in Hr. cbn [bind] in Hr.
  replace (1 + 0) with 1 in Hr by ring.
  rewrite py_pow_base_1 in Hr. cbn [bind] in Hr.
  apply py_div_Some in Hr. destruct Hr as (_ & ->).
  injection Hl as ->. unfold Rdiv. rewrite Rinv_1. ring.
Qed.

Lemma learning_factor_value common params data x t :
  feasible_for common params data x ->
  in_time common params data t ->
  gv x learning_factor t = gv x LBD_factor t * gv x LOT_factor t.
Proof.
  intros F Ht.
  pose proof (feasible_global_rule common params data x _ t F
                (In_last_global_rule common params _
                   (or_intror (or_intror (or_introl eq_refl)))) Ht) as H.
  sides H u Hl Hr. cbn [eval bind learning_factor_rule] in Hl, Hr.
  injection Hl as <-. injection Hr as Hr. symmetry; exact Hr.
Qed.

(** X10: the module fixes LOT_rate to 0; unless the instance data
    override it, learning over time is switched off at every time of a
    feasible trajectory: LOT_factor is 1 and the learning factor equals
    the learning-by-doing factor. *)
Theorem learning_over_time_is_off common params data x t :
  data LOT_rate = None ->
  feasible_for common params data x ->
  in_time common params data t ->
  gv x LOT_factor t = 1
  /\ gv x learning_factor t = gv x LBD_factor t.
Proof.
  intros HD F Ht.
  assert (HLOT : gv x LOT_factor t = 1).
  { apply (LOT_factor_value common params data x t F Ht).
    now apply value_LOT_rate. }
  split; [exact HLOT |].
  rewrite (learning_factor_value common params data x t F Ht), HLOT. ring.
Qed.

Lemma value_log_LBD_rate common params data :
  data LBD_rate = None -> data log_LBD_rate = None ->
  economics_MAC_rho params = 1 ->
  value (instance common params data) log_LBD_rate = Some 0.
Proof.
  intros H1 H2 Hrho. param_value. rewrite H2, H1, Hrho. cbn [bind].
  rewrite !py_log_positive by lra. cbn [bind].
  rewrite py_div_nonzero by apply ln_2_neq_0.
  rewrite ln_1. unfold Rdiv. now rewrite Rmult_0_l.
Qed.

(** X11: with the learning rate rho equal to 1 (and no instance data
    for it) the exponent log2(rho) is 0 and learning by doing is
    switched off: LBD_factor is 1 at every time of a feasible
    trajectory, whatever has been abated. *)
Theorem no_learning_by_doing common params data x t :
  data LBD_rate = None -> data log_LBD_rate = None ->
  economics_MAC_rho params = 1 ->
  feasible_for common params data x ->
  in_time common params data t ->
  value (instance common params data) log_LBD_rate = Some 0
  /\ gv x LBD_factor t = 1.
Proof.
  intros H1 H2 Hrho F Ht.
  assert (Hlog := value_log_LBD_rate common params data H1 H2 Hrho).
  split; [exact Hlog |].
  pose proof (feasible_global_rule common params data x _ t F
                (In_last_global_rule common params _ (or_introl eq_refl))
                Ht) as H.
  sides H u Hl Hr. cbn [eval bind LBD_factor_rule] in Hl, Hr.
  apply bind_Some in Hr. destruct Hr as (q & _ & Hr).
  rewrite Hlog in Hr. cbn [bind] in Hr.
  apply py_pow_exponent_0 in Hr. injection Hl as ->. exact Hr.
Qed.

(** ** Output, capital and utility *)

Lemma In_late_regional_rule params rule :
  In rule [GDP_gross_rule; GDP_net_rule; investments_rule; consumption_rule;
           utility_rule; capital_stockdot_rule] ->
  In rule (regional_rules params).
Proof.
  intros H. apply In_fixed_regional_rule. cbn [In] in *. tauto.
Qed.

Lemma investments_value common params data x t r :
  feasible_for common params data x ->
  in_time common params data t ->
  In r (regions (instance common params data)) ->
  exists s,
    value (instance common params data) sr = Some s
    /\ rv x investments t r = s * rv x GDP_net t r
    /\ rv x consumption t r = (1 - s) * rv x GDP_net t r.
Proof.
  intros F Ht Hr.
  pose proof (feasible_regional_rule common params data x investments_rule
                t r F (In_late_regional_rule params _
                         (or_intror (or_intror (or_introl eq_refl))))
                Ht Hr) as HI.
  pose proof (feasible_regional_rule common params data x consumption_rule
                t r F (In_late_regional_rule params _
                         (or_intror (or_intror (or_intror
                            (or_introl eq_refl)))))
                Ht Hr) as HC.
  sides HI u Hl Hr'. sides HC w Hl' Hr''.
  cbn [eval bind investments_rule] in Hl, Hr'.
  cbn [eval bind consumption_rule] in Hl', Hr''.
  destruct (value (instance common params data) sr) as [s |];
    [| discriminate].
  cbn [bind] in Hr', Hr''. exists s. split; [reflexivity |].
  injection Hl as <-. injection Hr' as Hr'.
  injection Hl' as <-. injection Hr'' as Hr''.
  split; symmetry; assumption.
Qed.

(** X12: on every feasible trajectory net output is split in full
    between investments and consumption, at every time and in every
    region. *)
Theorem output_is_invested_or_consumed common params data x t r :
  feasible_for common params data x ->
  in_time common params data t ->
  In r (regions (instance common params data)) ->
  rv x investments t r + rv x consumption t r = rv x GDP_net t r.
Proof.
  intros F Ht Hr.
  destruct (investments_value common params data x t r F Ht Hr)
    as (s & _ & -> & ->).
  ring.
Qed.

Lemma py_log_Some u w : py_log u = Some w -> 0 < u /\ w = ln u.
Proof.
  unfold py_log. destruct (Rlt_dec 0 u) as [Hu | _]; [| discriminate].
  intros [= <-]. now split.
Qed.

Lemma DerivativeVar_capital_stock common params :
  In (DerivativeVar_tr capital_stockdot capital_stock)
     (components (abstract_model common params)).
Proof.
  apply derivatives_In; [reflexivity |].
  rewrite derivatives_model. cbn [In]. tauto.
Qed.

(** X13: on every feasible trajectory the capital stock of a region has
    the time derivative ln(1 - dk) * capital_stock + sr * GDP_net; the
    depreciation dk is below 1, for otherwise the logarithm has no
    value and no trajectory is feasible. *)
Theorem capital_accumulation common params data x t r :
  feasible_for common params data x ->
  in_time common params data t ->
  In r (regions (instance common params data)) ->
  exists d s,
    value (instance common params data) dk = Some d
    /\ value (instance common params data) sr = Some s
    /\ d < 1
    /\ derivable_pt_lim (fun u => rv x capital_stock u r) t
         (ln (1 - d) * rv x capital_stock t r + s * rv x GDP_net t r).
Proof.
  intros F Ht Hr.
  destruct (investments_value common params data x t r F Ht Hr)
    as (s & Hs & Hinv & _).
  pose proof (feasible_regional_rule common params data x
                capital_stockdot_rule t r F
                (In_late_regional_rule params _
                   (or_intror (or_intror (or_intror (or_intror
                      (or_intror (or_introl eq_refl)))))))
                Ht Hr) as H.
  sides H u Hl Hr'. cbn [eval bind capital_stockdot_rule] in Hl, Hr'.
  destruct (value (instance common params data) dk) as [d |];
    [| discriminate].
  cbn [bind] in Hr'.
  apply bind_Some in Hr'. destruct Hr' as (q & Hq & Hr').
  apply bind_Some in Hq. destruct Hq as (q' & Hq' & Hq).
  apply py_log_Some in Hq'. destruct Hq' as (Hpos & ->).
  injection Hq as <-. injection Hr' as <-. injection Hl as Hl.
  exists d, s. split; [reflexivity |]. split; [exact Hs |].
  split; [lra |].
  rewrite <- Hinv, <- Hl.
  exact (feasible_DerivativeVar_tr _ _ _ _ F _ _
           (DerivativeVar_capital_stock common params) t r Ht Hr).
Qed.

Lemma py_div_by_0 u : py_div u 0 = None.
Proof.
  unfold py_div. destruct (Req_dec_T 0 0) as [_ | H];
    [reflexivity | contradiction].
Qed.

Lemma utility_rule_needs_elasmu common (m : Instance) x t r :
  value m elasmu = Some 1 ->
  ~ satisfied common m x (utility_rule m t r).
Proof.
  intros He. unfold satisfied. cbn [holds eval bind utility_rule].
  rewrite He. cbn [bind].
  replace (1 - 1) with 0 by ring.
  destruct (u <- (u <- py_div (rv x consumption t r) (L m t r);;
                  py_pow u 0);; Some (u - 1)) as [q |];
    cbn [bind]; [| tauto].
  rewrite py_div_by_0. tauto.
Qed.

(** X14: with elasmu equal to 1 the utility relation divides by
    1 - elasmu = 0: as soon as the model has a region and a time, no
    trajectory is feasible. *)
Theorem elasmu_1_is_infeasible common params data x t r :
  value (instance common params data) elasmu = Some 1 ->
  in_time common params data t ->
  In r (regions (instance common params data)) ->
  ~ feasible_for common params data x.
Proof.
  intros He Ht Hr F.
  apply (utility_rule_needs_elasmu common (instance common params data)
           x t r He).
  apply (feasible_regional_rule common params data x utility_rule t r F);
    [| exact Ht | exact Hr].
  apply In_late_regional_rule. cbn [In]. tauto.
Qed.

(** ** The start of a trajectory *)

(** X15: the initial condition on regional emissions and the emission
    relation at time 0 leave the abatement no choice where the baseline
    at time 0 is not 0: a feasible trajectory starts with relative
    abatement 0, and the marginal abatement cost of no abatement must
    then be 0. *)
Theorem abatement_starts_at_0 common params data x r :
  feasible_for common params data x ->
  in_time common params data 0 ->
  In r (regions (instance common params data)) ->
  baseline (series (instance common params data)) 0 r <> 0 ->
  rv x relative_abatement 0 r = 0
  /\ exists gamma beta,
       value (instance common params data) MAC_gamma = Some gamma
       /\ value (instance common params data) MAC_beta = Some beta
       /\ MAC common 0 (gv x learning_factor 0) gamma beta = 0.
Proof.
  intros F Ht Hr Hbase.
  assert (Ha : rv x relative_abatement 0 r = 0).
  { pose proof (regional_emissions_value common params data x 0 r F Ht Hr)
      as Hrule.
    pose proof (feasible_initial_condition common params data x _ F
                  (In_init_region _ r _ Hr (or_introl eq_refl))) as H.
    sides H u Hl Hr'. cbn [eval] in Hl, Hr'.
    injection Hl as <-. injection Hr' as Hinit.
    rewrite <- Hinit in Hrule.
    assert (Hz : rv x relative_abatement 0 r
                 * baseline (series (instance common params data)) 0 r = 0)
      by lra.
    apply Rmult_integral in Hz. destruct Hz as [Hz | Hz];
      [exact Hz | contradiction]. }
  split; [exact Ha |].
  pose proof (feasible_regional_rule common params data x _ 0 r F
                (In_carbonprice_rule params) Ht Hr) as H.
  pose proof (feasible_initial_condition common params data x _ F
                (In_init_region _ r _ Hr
                   (or_intror (or_intror (or_introl eq_refl))))) as H0.
  sides H u Hl Hr'. sides H0 w Hl0 Hr0.
  cbn [eval bind carbonprice_rule] in Hl, Hr', Hl0, Hr0.
  destruct (value (instance common params data) MAC_gamma) as [gamma |];
    [| discriminate].
  destruct (value (instance common params data) MAC_beta) as [beta |];
    [| discriminate].
  cbn [bind] in Hr'. exists gamma, beta. repeat split.
  injection Hl as <-. injection Hr' as Hr'. injection Hl0 as <-.
  injection Hr0 as Hr0. rewrite Ha in Hr'. rewrite Hr', <- Hr0.
  reflexivity.
Qed.

(** ** Regional parameters *)

Lemma lookup_map (f : RegionParams -> R) r rp :
  forall l,
  NoDup (map fst l) -> In (r, rp) l ->
  lookup r (map (fun e => (fst e, f (snd e))) l) = Some (f rp).
Proof.
  induction l as [| [k e] l IH]; intros Hnd Hin; [destruct Hin |].
  cbn [map fst snd lookup]. cbn [map fst] in Hnd.
  inversion Hnd as [| ? ? Hnotin Hnd']; subst.
  destruct Hin as [[= -> ->] | Hin].
  - now rewrite String.eqb_refl.
  - destruct (String.eqb_spec k r) as [-> | _].
    + exfalso. apply Hnotin.
      apply (in_map fst) in Hin. exact Hin.
    + now apply IH.
Qed.

Lemma lookup_missing (f : RegionParams -> R) r :
  forall l,
  ~ In r (map fst l) ->
  lookup r (map (fun e => (fst e, f (snd e))) l) = None.
Proof.
  induction l as [| [k e] l IH]; intros Hnotin; [reflexivity |].
  cbn [map fst snd lookup]. cbn [map fst In] in Hnotin.
  destruct (String.eqb_spec k r) as [-> | _]; [tauto |].
  apply IH. tauto.
Qed.

Lemma ivalue_init_capitalstock common params data r :
  ivalue (instance common params data) init_capitalstock r
  = lookup r (map (fun e => (fst e,
                             Quant common (initial_capital (snd e))
                               "currency_unit"))
                  (params_regions params)).
Proof. rewrite ivalue_model, parameters_model. reflexivity. Qed.

Lemma ivalue_damage_factor common params data r :
  ivalue (instance common params data) damage_factor r
  = lookup r (map (fun e => (fst e,
                             match damage_factor_entry (snd e) with
                             | Some f => f
                             | None => 1
                             end))
                  (params_regions params)).
Proof. rewrite ivalue_model, parameters_model. reflexivity. Qed.

(** X16: when the region names are distinct, the capital stock of every
    region starts, on a feasible trajectory, at the converted
    'initial capital' of its own entry in the parameter set. *)
Theorem capital_stock_starts_at_initial_capital common params data x r rp :
  NoDup (map fst (params_regions params)) ->
  In (r, rp) (params_regions params) ->
  feasible_for common params data x ->
  rv x capital_stock 0 r = Quant common (initial_capital rp) "currency_unit".
Proof.
  intros Hnd Hin F.
  assert (Hr : In r (regions (instance common params data))).
  { rewrite regions_model. apply (in_map fst) in Hin. exact Hin. }
  pose proof (feasible_initial_condition common params data x _ F
                (In_init_region _ r _ Hr
                   (or_intror (or_introl eq_refl)))) as H.
  sides H u Hl Hr'. cbn [eval] in Hl, Hr'.
  rewrite ivalue_init_capitalstock in Hr'.
  rewrite (lookup_map (fun e => Quant common (initial_capital e)
                                  "currency_unit") r rp _ Hnd Hin) in Hr'.
  injection Hl as <-. injection Hr' as Hr'. symmetry; exact Hr'.
Qed.

Lemma damage_costs_value common (m : Instance) x t r f :
  satisfied common m x (damage_costs_rule m t r) ->
  ivalue m damage_factor r = Some f ->
  exists coeff t0,
    value m damage_coeff = Some coeff
    /\ value m T0 = Some t0
    /\ rv x damage_costs t r
       = f * damage_fct common (gv x temperature t) coeff t0.
Proof.
  intros H Hf. sides H u Hl Hr.
  cbn [eval bind damage_costs_rule] in Hl, Hr.
  rewrite Hf in Hr. cbn [bind] in Hr.
  destruct (value m damage_coeff) as [coeff |]; [| discriminate].
  destruct (value m T0) as [t0 |]; [| discriminate].
  cbn [bind] in Hr. exists coeff, t0.
  split; [reflexivity |]. split; [reflexivity |].
  injection Hl as <-. injection Hr as Hr. symmetry; exact Hr.
Qed.

(** X17: when the region names are distinct, the damage costs of a
    region on a feasible trajectory are the damage function of the
    temperature scaled by the 'damage factor' of the region's entry,
    and by 1 when the entry has none. *)
Theorem damage_costs_default_factor common params data x t r rp :
  NoDup (map fst (params_regions params)) ->
  In (r, rp) (params_regions params) ->
  feasible_for common params data x ->
  in_time common params data t ->
  exists coeff t0,
    value (instance common params data) damage_coeff = Some coeff
    /\ value (instance common params data) T0 = Some t0
    /\ rv x damage_costs t r
       = match damage_factor_entry rp with
         | Some f => f
         | None => 1
         end * damage_fct common (gv x temperature t) coeff t0.
Proof.
  intros Hnd Hin F Ht.
  assert (Hr : In r (regions (instance common params data))).
  { rewrite regions_model. apply (in_map fst) in Hin. exact Hin. }
  apply (damage_costs_value common (instance common params data) x t r).
  - apply (feasible_regional_rule common params data x damage_costs_rule
             t r F (In_fixed_regional_rule params _ (or_introl eq_refl))
             Ht Hr).
  - rewrite ivalue_damage_factor.
    exact (lookup_map (fun e => match damage_factor_entry e with
                                | Some f => f
                                | None => 1
                                end) r rp _ Hnd Hin).
Qed.

(** ** The shape of the system *)

(** X18: at every time, every variable other than the control, the
    states and the two derivatives read by the inertia limits has
    exactly one defining equation among the registered relations; the
    relative abatement, the states cumulative_emissions, NPV and
    capital_stock, and the derivatives global_emissionsdot and
    regional_emissionsdot have none. *)
Theorem one_equation_per_variable common params data t :
  NoDup (map fst (params_regions params)) ->
  (forall v,
     count (equation_of_t v)
       (relations_at (abstract_model common params)
          (instance common params data) t)
     = match v with
       | cumulative_emissions | NPV | global_emissionsdot => 0%nat
       | _ => 1%nat
       end)
  /\ (forall v r,
        In r (regions (instance common params data)) ->
        count (equation_of_tr v r)
          (relations_at (abstract_model common params)
             (instance common params data) t)
        = match v with
          | relative_abatement | capital_stock | regional_emissionsdot =>
              0%nat
          | _ => 1%nat
          end).
Proof.
  intros Hnd.
  assert (Hnd' : NoDup (regions (instance common params data)))
    by now rewrite regions_model.
  split.
  - intros v.
    rewrite relations_at_model, count_app, count_equation_of_t_global,
      count_equation_of_t_regional.
    destruct v; reflexivity.
  - intros v r Hr.
    rewrite relations_at_model, count_app, count_equation_of_tr_global,
      (count_equation_of_tr_regional _ _ _ _ r Hnd' Hr).
    reflexivity.
Qed.

(** ** The data lookups *)

Lemma interp_from_right x : forall xp fp,
  List.length xp = List.length fp ->
  Forall (fun v => v <= x) xp ->
  np.interp_from x xp fp = last fp 0.
Proof.
  induction xp as [| x0 xp IH]; intros fp Hlen Hle.
  - destruct fp; [reflexivity | discriminate Hlen].
  - destruct fp as [| f0 fp]; [discriminate Hlen |].
    destruct xp as [| x1 xp].
    + destruct fp; [reflexivity | discriminate Hlen].
    + destruct fp as [| f1 fp]; [discriminate Hlen |].
      change (np.interp_from x (x0 :: x1 :: xp) (f0 :: f1 :: fp))
        with (if Rlt_dec x x1
              then (f1 - f0) / (x1 - x0) * (x - x0) + f0
              else np.interp_from x (x1 :: xp) (f1 :: fp)).
      inversion Hle as [| ? ? _ Hle']; subst.
      destruct (Rlt_dec x x1) as [Hlt | _].
      * inversion Hle' as [| ? ? H1 _]; subst. lra.
      * rewrite (IH (f1 :: fp)); [reflexivity | | exact Hle'].
        cbn [List.length] in Hlen |- *. lia.
Qed.

Lemma data_years_range : Forall (fun v => 2015 <= v <= 2200) data_years.
Proof.
  unfold data_years, np.arange. apply Forall_map, Forall_forall.
  intros i Hi. apply in_seq in Hi.
  assert (H0 : 0 <= INR i) by apply pos_INR.
  assert (H1 : INR i <= INR 185) by (apply le_INR; lia).
  replace (INR 185) with 185 in H1 by (rewrite INR_IZR_INZ; reflexivity).
  lra.
Qed.

(** X19: a lookup outside the data years does not fail and does not
    extrapolate: before 2015 it gives the first value of the table, and
    from 2200 on the last one, provided the table has one value per
    data year. *)
Theorem get_data_outside_data_years params t r (data_param : region -> list R) :
  (time_start params + t <= 2015 ->
   get_data params t r data_param = hd 0 (data_param r))
  /\ (2200 <= time_start params + t ->
      List.length (data_param r) = 186%nat ->
      get_data params t r data_param = last (data_param r) 0).
Proof.
  unfold get_data. cbv zeta. split.
  - intros Hle. unfold np.interp.
    change data_years with (2015 + INR 0 :: map (fun i => 2015 + INR i)
                                              (seq 1 185)).
    destruct (data_param r) as [| f0 fp]; [reflexivity |].
    cbn [hd INR].
    destruct (Rle_dec (time_start params + t) (2015 + 0)) as [_ | Hn];
      [reflexivity | lra].
  - intros Hge Hlen. unfold np.interp.
    remember (data_param r) as fp eqn:Hfp.
    assert (Hright : np.interp_from (time_start params + t) data_years fp
                     = last fp 0).
    { apply interp_from_right.
      - rewrite Hlen. reflexivity.
      - eapply Forall_impl; [| exact data_years_range].
        cbv beta. intros v Hv. lra. }
    revert Hright.
    change data_years with (2015 + INR 0 :: map (fun i => 2015 + INR i)
                                              (seq 1 185)).
    destruct fp as [| f0 fp']; [discriminate Hlen |].
    cbn [INR].
    destruct (Rle_dec (time_start params + t) (2015 + 0)) as [Hle | _];
      [lra |].
    intros Hright. exact Hright.
Qed.

Lemma interp_from_at_sample : forall xp fp k,
  List.length xp = List.length fp ->
  (forall i j, (i < j < List.length xp)%nat -> nth i xp 0 < nth j xp 0) ->
  (k < List.length xp)%nat ->
  np.interp_from (nth k xp 0) xp fp = nth k fp 0.
Proof.
  induction xp as [| x0 xp IH]; intros fp k Hlen Hinc Hk.
  - cbn [List.length] in Hk. lia.
  - destruct fp as [| f0 fp]; [discriminate Hlen |].
    destruct xp as [| x1 xp].
    + destruct fp; [| discriminate Hlen].
      cbn [List.length] in Hk. assert (k = 0%nat) as -> by lia.
      reflexivity.
    + destruct fp as [| f1 fp]; [discriminate Hlen |].
      change (np.interp_from (nth k (x0 :: x1 :: xp) 0) (x0 :: x1 :: xp)
                (f0 :: f1 :: fp))
        with (if Rlt_dec (nth k (x0 :: x1 :: xp) 0) x1
              then (f1 - f0) / (x1 - x0)
                   * (nth k (x0 :: x1 :: xp) 0 - x0) + f0
              else np.interp_from (nth k (x0 :: x1 :: xp) 0) (x1 :: xp)
                     (f1 :: fp)).
      destruct k as [| k].
      * cbn [nth].
        assert (H01 : x0 < x1).
        { apply (Hinc 0%nat 1%nat). cbn [List.length]. lia. }
        destruct (Rlt_dec x0 x1) as [_ | Hn]; [| contradiction].
        unfold Rdiv. ring.
      * change (nth (S k) (x0 :: x1 :: xp) 0) with (nth k (x1 :: xp) 0).
        assert (Hge : ~ nth k (x1 :: xp) 0 < x1).
        { destruct k as [| k]; [cbn [nth]; lra |].
          assert (H1 : x1 < nth (S k) (x1 :: xp) 0).
          { apply (Hinc 1%nat (S (S k))). cbn [List.length] in Hk |- *. lia. }
          lra. }
        destruct (Rlt_dec (nth k (x1 :: xp) 0) x1) as [Hlt | _];
          [contradiction |].
        change (nth (S k) (f0 :: f1 :: fp) 0) with (nth k (f1 :: fp) 0).
        apply IH.
        -- cbn [List.length] in Hlen |- *. lia.
        -- intros i j Hij. apply (Hinc (S i) (S j)).
           cbn [List.length] in Hij |- *. lia.
        -- cbn [List.length] in Hk |- *. lia.
Qed.

Lemma interp_at_sample xp fp k :
  List.length xp = List.length fp ->
  (forall i j, (i < j < List.length xp)%nat -> nth i xp 0 < nth j xp 0) ->
  (k < List.length xp)%nat ->
  np.interp (nth k xp 0) xp fp = nth k fp 0.
Proof.
  intros Hlen Hinc Hk. unfold np.interp.
  destruct xp as [| x0 xp]; [cbn [List.length] in Hk; lia |].
  destruct fp as [| f0 fp]; [discriminate Hlen |].
  destruct (Rle_dec (nth k (x0 :: xp) 0) x0) as [Hle | _].
  - destruct k as [| k]; [reflexivity |].
    assert (H0 : x0 < nth (S k) (x0 :: xp) 0).
    { apply (Hinc 0%nat (S k)). lia. }
    lra.
  - now apply interp_from_at_sample.
Qed.

Lemma data_years_nth k :
  (k < 186)%nat -> nth k data_years 0 = 2015 + INR k.
Proof.
  intros Hk. unfold data_years, np.arange.
  rewrite (nth_indep _ 0 (2015 + INR 0))
    by (rewrite length_map, length_seq; exact Hk).
  rewrite (map_nth (fun i => 2015 + INR i)).
  rewrite seq_nth by exact Hk. reflexivity.
Qed.

Lemma data_years_length : List.length data_years = 186%nat.
Proof. unfold data_years, np.arange. now rewrite length_map, length_seq. Qed.

Lemma data_years_increasing i j :
  (i < j < List.length data_years)%nat ->
  nth i data_years 0 < nth j data_years 0.
Proof.
  rewrite data_years_length. intros Hij.
  rewrite !data_years_nth by lia.
  apply Rplus_lt_compat_l, lt_INR. lia.
Qed.

(** X20: at a data year the lookup gives the value of the table for
    that year: for a table with one value per data year and a time t at
    which beginyear + t is the k-th data year 2015 + k, the lookup is
    the k-th value. *)
Theorem get_data_at_data_year params t r (data_param : region -> list R) k :
  (k < 186)%nat ->
  List.length (data_param r) = 186%nat ->
  time_start params + t = 2015 + INR k ->
  get_data params t r data_param = nth k (data_param r) 0.
Proof.
  intros Hk Hlen Hyear. unfold get_data. cbv zeta.
  rewrite Hyear, <- (data_years_nth k Hk).
  apply interp_at_sample.
  - now rewrite data_years_length, Hlen.
  - exact data_years_increasing.
  - now rewrite data_years_length.
Qed.

(** ** The cumulative baseline *)

Lemma trapz_of_constant c : forall xs,
  np.trapz (map (fun _ => c) xs) xs = c * (last xs 0 - hd 0 xs).
Proof.
  induction xs as [| x0 xs IH]; [cbn; ring |].
  destruct xs as [| x1 xs]; [cbn; ring |].
  change (np.trapz (map (fun _ => c) (x0 :: x1 :: xs)) (x0 :: x1 :: xs))
    with ((x1 - x0) * (c + c) / 2
          + np.trapz (map (fun _ => c) (x1 :: xs)) (x1 :: xs)).
  rewrite IH.
  change (last (x0 :: x1 :: xs) 0) with (last (x1 :: xs) 0).
  cbn [hd]. unfold Rdiv. field.
Qed.

Lemma linspace_ends a b n :
  hd 0 (np.linspace a b (S (S n))) = a
  /\ last (np.linspace a b (S (S n))) 0 = b.
Proof.
  unfold np.linspace. split.
  - cbn [seq map hd INR]. ring.
  - rewrite seq_S, map_app. cbn [map]. rewrite last_last.
    replace (S (S n) - 1)%nat with (S n) by lia. cbn [Nat.add].
    assert (Hn : INR (S n) <> 0) by (apply not_0_INR; discriminate).
    field. exact Hn.
Qed.

(** X21: for a region whose baseline does not change in time, the
    cumulative baseline up to a time is the baseline times that time:
    the trapezoidal sum over the 100 samples is exact. *)
Theorem baseline_cumulative_of_constant_baseline common params r c t_end :
  (forall t, m_baseline common params t r = c) ->
  m_baseline_cumulative common params t_end r = c * t_end.
Proof.
  intros Hc. unfold m_baseline_cumulative. cbv zeta.
  rewrite (map_ext _ (fun _ => c)) by (intros t; apply Hc).
  rewrite trapz_of_constant.
  destruct (linspace_ends 0 t_end 98) as [-> ->]. ring.
Qed.

(** ** The second scenario is feasible *)

Lemma bau_baseline t r : m_baseline bau_common bau_params t r = 2.
Proof.
  unfold m_baseline, get_data, data_baseline.
  apply (interp_constant 2), data_years_not_empty.
Qed.

Lemma bau_instance_like :
  bau_like (instance bau_common bau_params demo_data).
Proof.
  split.
  - rewrite regions_model. reflexivity.
  - intros p. rewrite value_model, parameters_model.
    cbn [construct_params demo_data eval bind bau_params time_start
         time_end economics_MAC_rho economics_MAC_beta
         economics_damages_coeff economics_GDP_alpha
         economics_GDP_depreciation_of_capital economics_elasmu
         economics_PRTP temperature_initial temperature_TCRE
         economics_MAC_gamma Quant bau_common].
    unfold set_value.
    destruct p; cbn [param_eqb bind demo_values]; try reflexivity.
    rewrite !py_log_positive by lra. cbn [bind].
    now rewrite py_div_nonzero by apply ln_2_neq_0.
  - rewrite ivalue_model, parameters_model. reflexivity.
  - rewrite ivalue_model, parameters_model. reflexivity.
  - intros t r. rewrite series_model. apply bau_baseline.
  - intros t r. rewrite series_model.
    apply (interp_constant 1), data_years_not_empty.
  - intros t r. rewrite series_model.
    apply (interp_constant 1), data_years_not_empty.
  - intros t r. rewrite series_model.
    change (m_baseline_cumulative bau_common bau_params t r = 2 * t).
    unfold m_baseline_cumulative. cbv zeta.
    rewrite (map_ext _ (fun _ => 2)) by (intros s; apply bau_baseline).
    rewrite trapz_of_constant.
    destruct (linspace_ends 0 t 98) as [-> ->]. ring.
Qed.

Ltac bau_eval H :=
  unfold satisfied, global_emissions_rule, cumulative_emissionsdot_rule,
    temperature_rule, inertia_global_rule, inertia_regional_rule,
    min_level_rule, LBD_factor_rule, LOT_factor_rule, learning_factor_rule,
    NPVdot_rule, regional_emissions_rule, damage_costs_rule,
    abatement_costs_rule, carbonprice_rule, GDP_gross_rule, GDP_net_rule,
    investments_rule, consumption_rule, utility_rule, capital_stockdot_rule,
    esum, LBD_scaling, L;
  rewrite ?(bau_regions _ H);
  cbn [holds eval gv rv bau_trajectory py_sum map fold_left Quant
       bau_common];
  rewrite ?(bau_value _ H), ?(bau_init_capitalstock _ H),
    ?(bau_damage_factor _ H), ?(bau_series_baseline _ H),
    ?(bau_series_population _ H), ?(bau_series_TFP _ H),
    ?(bau_series_baseline_cumulative _ H);
  cbn [demo_values bind damage_fct AC MAC calc_GDP bau_common].

Lemma bau_like_init m :
  bau_like m -> Forall (satisfied bau_common m bau_trajectory) (_init m).
Proof.
  intros H.
  unfold _init. rewrite (bau_regions _ H). cbn [flat_map app].
  repeat (apply Forall_cons; [bau_eval H; try reflexivity; try lra |]).
  apply Forall_nil.
Qed.

Lemma bau_like_relations m t :
  bau_like m ->
  Forall (satisfied bau_common m bau_trajectory)
    (map (fun rule => rule m t) (global_rules bau_common bau_params)
     ++ flat_map (fun rule => map (rule m t) (regions m))
          (regional_rules bau_params)).
Proof.
  intros H. rewrite (bau_regions _ H).
  unfold global_rules, regional_rules, optional.
  cbn [bau_params emissions_carbonbudget emissions_inertia_regional
       emissions_inertia_global emissions_min_level map flat_map app].
  repeat (apply Forall_cons; [|]); [.. | apply Forall_nil].
  all: try (bau_eval H; try reflexivity; try lra).
  - (* learning by doing *)
    rewrite py_div_nonzero by lra. cbn [bind].
    replace ((0 + 2 * t - 2 * t) / 1 + 1) with 1
      by (unfold Rdiv; rewrite Rinv_1; ring).
    rewrite py_pow_base_1. reflexivity.
  - (* learning over time *)
    replace (1 + 0) with 1 by ring. rewrite py_pow_base_1. cbn [bind].
    rewrite py_div_nonzero by lra. unfold Rdiv. rewrite Rinv_1. ring.
  - (* utility *)
    rewrite py_div_nonzero by lra. cbn [bind].
    replace (1 / 1) with 1 by (unfold Rdiv; rewrite Rinv_1; ring).
    rewrite py_pow_base_1. cbn [bind].
    rewrite py_div_nonzero by lra. unfold Rdiv. ring.
  - (* capital stock *)
    rewrite py_log_positive by lra. cbn [bind].
    replace (1 - 0) with 1 by ring. rewrite ln_1. ring.
Qed.

Lemma bau_in_time t :
  0 <= t <= 2100 - 2020 -> in_time bau_common bau_params demo_data t.
Proof.
  intros Ht. apply in_time_iff. exists (2100 - 2020). split; [| exact Ht].
  exact (bau_value _ bau_instance_like tf).
Qed.

Lemma bau_regions_WORLD :
  In "WORLD"%string (regions (instance bau_common bau_params demo_data)).
Proof. rewrite (bau_regions _ bau_instance_like). now left. Qed.

Lemma derivable_pt_lim_twice t : derivable_pt_lim (fun s => 2 * s) t 2.
Proof.
  pose proof (derivable_pt_lim_scal id 2 t 1 (derivable_pt_lim_id t)) as H.
  replace (2 * 1) with 2 in H by ring. exact H.
Qed.

Lemma bau_feasible :
  feasible_for bau_common bau_params demo_data bau_trajectory.
Proof.
  unfold feasible_for. split.
  - intros v ini lo hi Hin t _.
    apply variables_In in Hin; [| reflexivity].
    rewrite variables_model in Hin. cbn [In] in Hin.
    repeat (destruct Hin as [Hin | Hin]; [discriminate Hin |]).
    destruct Hin.
  - intros v ini lo hi Hin t r _ _.
    apply variables_In in Hin; [| reflexivity].
    rewrite variables_model in Hin. cbn [In] in Hin.
    repeat (destruct Hin as [Hin | Hin];
            [try discriminate Hin;
             injection Hin as <- _ <- <-; cbn [rv bau_trajectory]; lra |]).
    destruct Hin.
  - intros d v Hin t _.
    apply derivatives_In in Hin; [| reflexivity].
    rewrite derivatives_model in Hin. cbn [In] in Hin.
    repeat (destruct Hin as [Hin | Hin];
            [try discriminate Hin; injection Hin as <- <- |]);
      [ apply derivable_pt_lim_twice
      | apply (derivable_pt_lim_const 2)
      | apply (derivable_pt_lim_const 0)
      | destruct Hin ].
  - intros d v Hin t r _ _.
    apply derivatives_In in Hin; [| reflexivity].
    rewrite derivatives_model in Hin. cbn [In] in Hin.
    repeat (destruct Hin as [Hin | Hin];
            [try discriminate Hin; injection Hin as <- <- |]);
      [ apply (derivable_pt_lim_const 1)
      | apply (derivable_pt_lim_const 2)
      | destruct Hin ].
  - rewrite list_relations_model.
    apply bau_like_init, bau_instance_like.
  - intros t _. rewrite relations_at_model.
    apply bau_like_relations, bau_instance_like.
Qed.

(** ** The further properties in the small scenarios *)

Lemma bau_in_time_0 : in_time bau_common bau_params demo_data 0.
Proof. apply bau_in_time. lra. Qed.

Lemma bau_in_time_40 : in_time bau_common bau_params demo_data 40.
Proof. apply bau_in_time. lra. Qed.

Lemma bau_NoDup : NoDup (map fst (params_regions bau_params)).
Proof. cbn. constructor; [intros [] | constructor]. Qed.

Lemma bau_WORLD_entry :
  In ("WORLD"%string,
      {| initial_capital := "1 USD"; damage_factor_entry := None |})
     (params_regions bau_params).
Proof. now left. Qed.

Lemma value_elasmu common params data :
  data elasmu = None ->
  value (instance common params data) elasmu
  = Some (economics_elasmu params).
Proof. intros H0. param_value. now rewrite H0. Qed.

Lemma in_time_no_data common params t :
  0 <= t <= time_end params - time_start params ->
  in_time common params no_data t.
Proof.
  intros Ht. apply in_time_iff.
  exists (time_end params - time_start params). split; [| exact Ht].
  now apply value_tf.
Qed.

(** Global emissions of the second scenario at time 0. *)
Lemma global_emissions_sum_witness :
  feasible_for bau_common bau_params demo_data bau_trajectory
  /\ in_time bau_common bau_params demo_data 0
  /\ gv bau_trajectory global_emissions 0
     = py_sum (map (fun r => rv bau_trajectory regional_emissions 0 r)
                   (regions (instance bau_common bau_params demo_data))).
Proof.
  split; [exact bau_feasible |].
  split; [exact bau_in_time_0 |].
  exact (proj1 (global_emissions_sum bau_common bau_params demo_data
                  bau_trajectory 0 bau_feasible bau_in_time_0)).
Defined.

(** The derivative of the cumulative emissions of the second scenario. *)
Lemma cumulative_emissions_derivative_witness :
  feasible_for bau_common bau_params demo_data bau_trajectory
  /\ in_time bau_common bau_params demo_data 40
  /\ derivable_pt_lim (gv bau_trajectory cumulative_emissions) 40
       (py_sum
          (map (fun r =>
                  (1 - rv bau_trajectory relative_abatement 40 r)
                  * baseline
                      (series (instance bau_common bau_params demo_data))
                      40 r)
               (regions (instance bau_common bau_params demo_data)))).
Proof.
  split; [exact bau_feasible |].
  split; [exact bau_in_time_40 |].
  exact (cumulative_emissions_derivative bau_common bau_params demo_data
           bau_trajectory 40 bau_feasible bau_in_time_40).
Defined.

(** The temperature of the first scenario at the end of its time set. *)
Lemma temperature_response_witness :
  feasible_for demo_common demo_params demo_data demo_trajectory
  /\ in_time demo_common demo_params demo_data (2100 - 2020)
  /\ value (instance demo_common demo_params demo_data) T0 = Some 1
  /\ value (instance demo_common demo_params demo_data) TCRE = Some 1
  /\ emissions_carbonbudget demo_params = Some "1000 GtCO2"%string
  /\ value (instance demo_common demo_params demo_data) year2100
     = Some (2100 - 2020)
  /\ 2100 - 2020 >= 2100 - 2020
  /\ 0 <= 1
  /\ gv demo_trajectory temperature (2100 - 2020)
     <= 1 + 1 * Quant demo_common "1000 GtCO2" "emissions_unit".
Proof.
  assert (Hend : in_time demo_common demo_params demo_data (2100 - 2020))
    by (apply demo_in_time; lra).
  assert (H0 := demo_value _ demo_instance_like T0).
  assert (HT := demo_value _ demo_instance_like TCRE).
  assert (Hge : 2100 - 2020 >= 2100 - 2020) by lra.
  assert (Hpos : 0 <= 1) by lra.
  split; [exact demo_feasible |].
  split; [exact Hend |].
  split; [exact H0 |].
  split; [exact HT |].
  split; [reflexivity |].
  split; [exact demo_year2100 |].
  split; [exact Hge |].
  split; [exact Hpos |].
  exact (proj2 (temperature_response demo_common demo_params demo_data
                  demo_trajectory (2100 - 2020) 1 1 demo_feasible Hend
                  H0 HT)
           "1000 GtCO2"%string (2100 - 2020) eq_refl demo_year2100 Hge
           Hpos).
Defined.

(** The emissions of the first scenario, where abatement is 1. *)
Lemma regional_emissions_bounds_witness :
  feasible_for demo_common demo_params demo_data demo_trajectory
  /\ in_time demo_common demo_params demo_data 0
  /\ In "WORLD"%string (regions (instance demo_common demo_params demo_data))
  /\ 1 <= rv demo_trajectory relative_abatement 0 "WORLD"%string
  /\ 0 <= baseline (series (instance demo_common demo_params demo_data))
            0 "WORLD"%string
  /\ rv demo_trajectory regional_emissions 0 "WORLD"%string <= 0.
Proof.
  assert (Ha : 1 <= rv demo_trajectory relative_abatement 0 "WORLD"%string)
    by (cbn; lra).
  assert (Hb : 0 <= baseline
                      (series (instance demo_common demo_params demo_data))
                      0 "WORLD"%string).
  { rewrite (demo_series_baseline _ demo_instance_like). lra. }
  split; [exact demo_feasible |].
  split; [exact demo_in_time_0 |].
  split; [exact demo_regions_WORLD |].
  split; [exact Ha |].
  split; [exact Hb |].
  exact (proj2 (regional_emissions_bounds demo_common demo_params demo_data
                  demo_trajectory 0 "WORLD"%string demo_feasible
                  demo_in_time_0 demo_regions_WORLD) Ha Hb).
Defined.

(** The carbon budget of the parameter set that ends in 2050. *)
Lemma budget_beyond_end_year_witness :
  no_data beginyear = None /\ no_data endyear = None
  /\ no_data tf = None /\ no_data year2100 = None
  /\ time_end short_params < 2100
  /\ in_time demo_common short_params no_data 0
  /\ carbonbudget_rule 1 (instance demo_common short_params no_data) 0
     = CSkip.
Proof.
  assert (Hend : time_end short_params < 2100) by (cbn; lra).
  assert (Ht : in_time demo_common short_params no_data 0)
    by (apply in_time_no_data; cbn; lra).
  split; [reflexivity |].
  split; [reflexivity |].
  split; [reflexivity |].
  split; [reflexivity |].
  split; [exact Hend |].
  split; [exact Ht |].
  exact (proj1 (budget_beyond_end_year demo_common short_params no_data 1 0
                  eq_refl eq_refl eq_refl eq_refl Hend Ht)).
Defined.

(** The floor of the second scenario, and the first scenario, which has
    none. *)
Lemma emission_floor_witness :
  emissions_min_level bau_params = Some "1 GtCO2/yr"%string
  /\ feasible_for bau_common bau_params demo_data bau_trajectory
  /\ in_time bau_common bau_params demo_data 40
  /\ gv bau_trajectory global_emissions 40
     >= Quant bau_common "1 GtCO2/yr" "emissionsrate_unit"
  /\ emissions_min_level demo_params = None
  /\ forall t c,
       In c (relations_at (abstract_model demo_common demo_params)
               (instance demo_common demo_params demo_data) t) ->
       inequality_on global_emissions c = false.
Proof.
  split; [reflexivity |].
  split; [exact bau_feasible |].
  split; [exact bau_in_time_40 |].
  split.
  { exact (proj1 (emission_floor bau_common bau_params demo_data)
             "1 GtCO2/yr"%string bau_trajectory 40 eq_refl bau_feasible
             bau_in_time_40). }
  split; [reflexivity |].
  exact (proj2 (emission_floor demo_common demo_params demo_data) eq_refl).
Defined.

(** A floor of 1 over 80 years against a budget of 1. *)
Lemma floor_against_budget_witness :
  emissions_min_level tight_params = Some "1 GtCO2/yr"%string
  /\ emissions_carbonbudget tight_params = Some "1000 GtCO2"%string
  /\ value (instance demo_common tight_params no_data) year2100
     = Some (2100 - time_start tight_params)
  /\ in_time demo_common tight_params no_data
       (2100 - time_start tight_params)
  /\ Quant demo_common "1 GtCO2/yr" "emissionsrate_unit"
     * (2100 - time_start tight_params)
     > Quant demo_common "1000 GtCO2" "emissions_unit"
  /\ ~ feasible_for demo_common tight_params no_data demo_trajectory.
Proof.
  assert (Hy : value (instance demo_common tight_params no_data) year2100
               = Some (2100 - time_start tight_params))
    by now apply value_year2100.
  assert (Ht : in_time demo_common tight_params no_data
                 (2100 - time_start tight_params))
    by (apply in_time_no_data; cbn; lra).
  assert (Hgt : Quant demo_common "1 GtCO2/yr" "emissionsrate_unit"
                * (2100 - time_start tight_params)
                > Quant demo_common "1000 GtCO2" "emissions_unit")
    by (cbn; lra).
  split; [reflexivity |].
  split; [reflexivity |].
  split; [exact Hy |].
  split; [exact Ht |].
  split; [exact Hgt |].
  exact (floor_against_budget demo_common tight_params no_data
           demo_trajectory "1 GtCO2/yr"%string "1000 GtCO2"%string
           (2100 - time_start tight_params) eq_refl eq_refl Hy Ht Hgt).
Defined.

(** The regional inertia limit of the second scenario over 40 years. *)
Lemma regional_inertia_witness :
  emissions_inertia_regional bau_params = Some (-1)
  /\ feasible_for bau_common bau_params demo_data bau_trajectory
  /\ in_time bau_common bau_params demo_data 0
  /\ in_time bau_common bau_params demo_data 40
  /\ 0 <= 40
  /\ In "WORLD"%string (regions (instance bau_common bau_params demo_data))
  /\ rv bau_trajectory regional_emissions 40 "WORLD"%string
     - rv bau_trajectory regional_emissions 0 "WORLD"%string
     >= -1 * baseline (series (instance bau_common bau_params demo_data))
               0 "WORLD"%string * (40 - 0).
Proof.
  assert (Hle : 0 <= 40) by lra.
  split; [reflexivity |].
  split; [exact bau_feasible |].
  split; [exact bau_in_time_0 |].
  split; [exact bau_in_time_40 |].
  split; [exact Hle |].
  split; [exact bau_regions_WORLD |].
  exact (regional_inertia bau_common bau_params demo_data bau_trajectory
           (-1) 0 40 "WORLD"%string eq_refl bau_feasible bau_in_time_0
           bau_in_time_40 Hle bau_regions_WORLD).
Defined.

(** The global inertia limit of the second scenario over 40 years. *)
Lemma global_inertia_witness :
  emissions_inertia_global bau_params = Some (-1)
  /\ feasible_for bau_common bau_params demo_data bau_trajectory
  /\ in_time bau_common bau_params demo_data 0
  /\ in_time bau_common bau_params demo_data 40
  /\ 0 <= 40
  /\ gv bau_trajectory global_emissions 40
     - gv bau_trajectory global_emissions 0
     >= -1
        * py_sum
            (map (fun r =>
                    baseline
                      (series (instance bau_common bau_params demo_data))
                      0 r)
                 (regions (instance bau_common bau_params demo_data)))
        * (40 - 0).
Proof.
  assert (Hle : 0 <= 40) by lra.
  split; [reflexivity |].
  split; [exact bau_feasible |].
  split; [exact bau_in_time_0 |].
  split; [exact bau_in_time_40 |].
  split; [exact Hle |].
  exact (global_inertia bau_common bau_params demo_data bau_trajectory
           (-1) 0 40 eq_refl bau_feasible bau_in_time_0 bau_in_time_40 Hle).
Defined.

(** Learning over time in the second scenario. *)
Lemma learning_over_time_is_off_witness :
  demo_data LOT_rate = None
  /\ feasible_for bau_common bau_params demo_data bau_trajectory
  /\ in_time bau_common bau_params demo_data 40
  /\ (gv bau_trajectory LOT_factor 40 = 1
      /\ gv bau_trajectory learning_factor 40
         = gv bau_trajectory LBD_factor 40).
Proof.
  split; [reflexivity |].
  split; [exact bau_feasible |].
  split; [exact bau_in_time_40 |].
  exact (learning_over_time_is_off bau_common bau_params demo_data
           bau_trajectory 40 eq_refl bau_feasible bau_in_time_40).
Defined.

(** Learning by doing in the second scenario, whose rho is 1. *)
Lemma no_learning_by_doing_witness :
  demo_data LBD_rate = None /\ demo_data log_LBD_rate = None
  /\ economics_MAC_rho bau_params = 1
  /\ feasible_for bau_common bau_params demo_data bau_trajectory
  /\ in_time bau_common bau_params demo_data 40
  /\ gv bau_trajectory LBD_factor 40 = 1.
Proof.
  split; [reflexivity |].
  split; [reflexivity |].
  split; [reflexivity |].
  split; [exact bau_feasible |].
  split; [exact bau_in_time_40 |].
  exact (proj2 (no_learning_by_doing bau_common bau_params demo_data
                  bau_trajectory 40 eq_refl eq_refl eq_refl bau_feasible
                  bau_in_time_40)).
Defined.

(** The split of net output in the second scenario. *)
Lemma output_is_invested_or_consumed_witness :
  feasible_for bau_common bau_params demo_data bau_trajectory
  /\ in_time bau_common bau_params demo_data 40
  /\ In "WORLD"%string (regions (instance bau_common bau_params demo_data))
  /\ rv bau_trajectory investments 40 "WORLD"%string
     + rv bau_trajectory consumption 40 "WORLD"%string
     = rv bau_trajectory GDP_net 40 "WORLD"%string.
Proof.
  split; [exact bau_feasible |].
  split; [exact bau_in_time_40 |].
  split; [exact bau_regions_WORLD |].
  exact (output_is_invested_or_consumed bau_common bau_params demo_data
           bau_trajectory 40 "WORLD"%string bau_feasible bau_in_time_40
           bau_regions_WORLD).
Defined.

(** The capital stock of the second scenario. *)
Lemma capital_accumulation_witness :
  feasible_for bau_common bau_params demo_data bau_trajectory
  /\ in_time bau_common bau_params demo_data 40
  /\ In "WORLD"%string (regions (instance bau_common bau_params demo_data))
  /\ exists d s,
       value (instance bau_common bau_params demo_data) dk = Some d
       /\ value (instance bau_common bau_params demo_data) sr = Some s
       /\ d < 1
       /\ derivable_pt_lim
            (fun u => rv bau_trajectory capital_stock u "WORLD"%string) 40
            (ln (1 - d) * rv bau_trajectory capital_stock 40 "WORLD"%string
             + s * rv bau_trajectory GDP_net 40 "WORLD"%string).
Proof.
  split; [exact bau_feasible |].
  split; [exact bau_in_time_40 |].
  split; [exact bau_regions_WORLD |].
  exact (capital_accumulation bau_common bau_params demo_data
           bau_trajectory 40 "WORLD"%string bau_feasible bau_in_time_40
           bau_regions_WORLD).
Defined.

(** The parameter set with elasmu equal to 1. *)
Lemma elasmu_1_is_infeasible_witness :
  value (instance demo_common short_params no_data) elasmu = Some 1
  /\ in_time demo_common short_params no_data 0
  /\ In "WORLD"%string (regions (instance demo_common short_params no_data))
  /\ ~ feasible_for demo_common short_params no_data demo_trajectory.
Proof.
  assert (He : value (instance demo_common short_params no_data) elasmu
               = Some 1)
    by now apply value_elasmu.
  assert (Ht : in_time demo_common short_params no_data 0)
    by (apply in_time_no_data; cbn; lra).
  assert (Hr : In "WORLD"%string
                 (regions (instance demo_common short_params no_data)))
    by (rewrite regions_model; now left).
  split; [exact He |].
  split; [exact Ht |].
  split; [exact Hr |].
  exact (elasmu_1_is_infeasible demo_common short_params no_data
           demo_trajectory 0 "WORLD"%string He Ht Hr).
Defined.

(** The start of the second scenario, whose baseline is 2. *)
Lemma abatement_starts_at_0_witness :
  feasible_for bau_common bau_params demo_data bau_trajectory
  /\ in_time bau_common bau_params demo_data 0
  /\ In "WORLD"%string (regions (instance bau_common bau_params demo_data))
  /\ baseline (series (instance bau_common bau_params demo_data))
       0 "WORLD"%string <> 0
  /\ rv bau_trajectory relative_abatement 0 "WORLD"%string = 0.
Proof.
  assert (Hb : baseline (series (instance bau_common bau_params demo_data))
                 0 "WORLD"%string <> 0).
  { rewrite (bau_series_baseline _ bau_instance_like). lra. }
  split; [exact bau_feasible |].
  split; [exact bau_in_time_0 |].
  split; [exact bau_regions_WORLD |].
  split; [exact Hb |].
  exact (proj1 (abatement_starts_at_0 bau_common bau_params demo_data
                  bau_trajectory "WORLD"%string bau_feasible bau_in_time_0
                  bau_regions_WORLD Hb)).
Defined.

(** The capital stock of the second scenario at time 0. *)
Lemma capital_stock_starts_at_initial_capital_witness :
  NoDup (map fst (params_regions bau_params))
  /\ In ("WORLD"%string,
         {| initial_capital := "1 USD"; damage_factor_entry := None |})
        (params_regions bau_params)
  /\ feasible_for bau_common bau_params demo_data bau_trajectory
  /\ rv bau_trajectory capital_stock 0 "WORLD"%string
     = Quant bau_common "1 USD" "currency_unit".
Proof.
  split; [exact bau_NoDup |].
  split; [exact bau_WORLD_entry |].
  split; [exact bau_feasible |].
  exact (capital_stock_starts_at_initial_capital bau_common bau_params
           demo_data bau_trajectory "WORLD"%string _ bau_NoDup
           bau_WORLD_entry bau_feasible).
Defined.

(** The damage costs of the second scenario, whose region has no
    'damage factor'. *)
Lemma damage_costs_default_factor_witness :
  NoDup (map fst (params_regions bau_params))
  /\ In ("WORLD"%string,
         {| initial_capital := "1 USD"; damage_factor_entry := None |})
        (params_regions bau_params)
  /\ feasible_for bau_common bau_params demo_data bau_trajectory
  /\ in_time bau_common bau_params demo_data 40
  /\ exists coeff t0,
       value (instance bau_common bau_params demo_data) damage_coeff
       = Some coeff
       /\ value (instance bau_common bau_params demo_data) T0 = Some t0
       /\ rv bau_trajectory damage_costs 40 "WORLD"%string
          = 1 * damage_fct bau_common (gv bau_trajectory temperature 40)
                  coeff t0.
Proof.
  split; [exact bau_NoDup |].
  split; [exact bau_WORLD_entry |].
  split; [exact bau_feasible |].
  split; [exact bau_in_time_40 |].
  exact (damage_costs_default_factor bau_common bau_params demo_data
           bau_trajectory 40 "WORLD"%string _ bau_NoDup bau_WORLD_entry
           bau_feasible bau_in_time_40).
Defined.

(** The equations of the second scenario. *)
Lemma one_equation_per_variable_witness :
  NoDup (map fst (params_regions bau_params))
  /\ count (equation_of_t temperature)
       (relations_at (abstract_model bau_common bau_params)
          (instance bau_common bau_params demo_data) 0) = 1%nat.
Proof.
  split; [exact bau_NoDup |].
  exact (proj1 (one_equation_per_variable bau_common bau_params demo_data 0
                  bau_NoDup) temperature).
Defined.

Lemma bau_table_length :
  List.length (data_baseline bau_common bau_params "WORLD"%string)
  = 186%nat.
Proof.
  unfold data_baseline. cbn [data_get_data bau_common].
  now rewrite length_map, data_years_length.
Qed.

(** Lookups of the baseline of the second scenario in 2010 and 2220. *)
Lemma get_data_outside_data_years_witness :
  time_start bau_params + (-10) <= 2015
  /\ get_data bau_params (-10) "WORLD"%string
       (data_baseline bau_common bau_params)
     = hd 0 (data_baseline bau_common bau_params "WORLD"%string)
  /\ 2200 <= time_start bau_params + 200
  /\ List.length (data_baseline bau_common bau_params "WORLD"%string)
     = 186%nat
  /\ get_data bau_params 200 "WORLD"%string
       (data_baseline bau_common bau_params)
     = last (data_baseline bau_common bau_params "WORLD"%string) 0.
Proof.
  assert (Hl : time_start bau_params + (-10) <= 2015) by (cbn; lra).
  assert (Hr : 2200 <= time_start bau_params + 200) by (cbn; lra).
  split; [exact Hl |].
  split.
  { exact (proj1 (get_data_outside_data_years bau_params (-10)
                    "WORLD"%string (data_baseline bau_common bau_params))
             Hl). }
  split; [exact Hr |].
  split; [exact bau_table_length |].
  exact (proj2 (get_data_outside_data_years bau_params 200 "WORLD"%string
                  (data_baseline bau_common bau_params))
           Hr bau_table_length).
Defined.

(** The lookup of the baseline of the second scenario in 2020. *)
Lemma get_data_at_data_year_witness :
  (5 < 186)%nat
  /\ List.length (data_baseline bau_common bau_params "WORLD"%string)
     = 186%nat
  /\ time_start bau_params + 0 = 2015 + INR 5
  /\ get_data bau_params 0 "WORLD"%string
       (data_baseline bau_common bau_params)
     = nth 5 (data_baseline bau_common bau_params "WORLD"%string) 0.
Proof.
  assert (Hk : (5 < 186)%nat) by lia.
  assert (Hy : time_start bau_params + 0 = 2015 + INR 5) by (cbn; lra).
  split; [exact Hk |].
  split; [exact bau_table_length |].
  split; [exact Hy |].
  exact (get_data_at_data_year bau_params 0 "WORLD"%string
           (data_baseline bau_common bau_params) 5 Hk bau_table_length Hy).
Defined.

(** The cumulative baseline of the second scenario over 40 years. *)
Lemma baseline_cumulative_of_constant_baseline_witness :
  (forall t, m_baseline bau_common bau_params t "WORLD"%string = 2)
  /\ m_baseline_cumulative bau_common bau_params 40 "WORLD"%string = 2 * 40.
Proof.
  assert (Hc : forall t, m_baseline bau_common bau_params t "WORLD"%string
                         = 2)
    by (intros t; apply bau_baseline).
  split; [exact Hc |].
  exact (baseline_cumulative_of_constant_baseline bau_common bau_params
           "WORLD"%string 2 40 Hc).
Defined.
